(** * NPB statistics dashboard: the data layer of [logic.py]

    A shallow embedding of the data access and transformation layer
    (load / validate / filter / persist) together with the properties
    its specification states about it.

    Conventions of the embedding:
    - a pandas [DataFrame] read from or written to a CSV file is a header
      (the column labels) and a list of rows of cells; the row index is
      not kept, since every operation of [logic.py] either resets it or
      writes with [index=False];
    - a float64 value is a primitive binary64 float, so [NaN] (an empty
      CSV field) and the infinities are values like any other;
    - the directory [DATA_DIR] with its two files, the clock and whether
      the storage takes writes form an explicit [World] that the
      effectful operations receive and return; a file is CSV text seen
      as its records of fields;
    - what the module takes from numpy, pandas and Python without
      fixing it is a parameter of the operations: the sorting routine
      ([Argsort]), and the text of a value, the dtype inference of a
      column, [int(str)], [float(str)] and [str(dict)] ([Env]). *)

From Stdlib Require Import ZArith List Bool Lia String Ascii DecimalString.
From Stdlib Require Import Permutation Sorted.
From Stdlib Require Import Floats.
Import ListNotations.

Local Open Scope string_scope.
Local Open Scope list_scope.

Set Warnings "-inexact-float".

(* ================================================================= *)
(** ** Binary64 comparisons *)

Module F64.

Definition le (x y : float) : bool := PrimFloat.leb x y.
Definition ge (x y : float) : bool := le y x.
Definition isna (x : float) : bool := PrimFloat.is_nan x.

(** [Series.clip(lower, upper)] on one value, as
    [NDFrame._clip_with_scalar] computes it: a missing value is kept,
    a value below [lower] becomes [lower], and a value of the ORIGINAL
    series above [upper] becomes [upper]. *)
Definition clip (lower upper x : float) : float :=
  let result := if isna x || ge x lower then x else lower in
  if isna x || le x upper then result else upper.


End F64.

(* ================================================================= *)
(** ** Exceptions and results *)

(** The exceptions that can leave the data layer.  [ValueError] is the
    one [logic.py] raises itself, with its message; the others come
    from pandas, numpy and the operating system: a missing file, an
    empty file, a record with too many fields or bytes that do not
    decode, a failed [astype] (a value that is no number, a missing or
    infinite value or an integer too large for [int64]), an
    out-of-range position in [take], a label that is no column, and a
    directory or file that cannot be made or opened for writing. *)
Inductive exn : Type :=
| FileNotFoundError
| EmptyDataError
| ParserError
| CastError
| IndexError
| KeyError
| OSError
| ValueError (msg : string).

Inductive result (A : Type) : Type :=
| Ok (a : A)
| Raise (e : exn).
Arguments Ok {A} a.
Arguments Raise {A} e.

Definition bind {A B} (r : result A) (k : A -> result B) : result B :=
  match r with
  | Ok a => k a
  | Raise e => Raise e
  end.

Notation "x <- r ;; k" := (bind r (fun x => k))
  (at level 61, r at next level, right associativity).

Fixpoint mapM {A B} (f : A -> result B) (l : list A) : result (list B) :=
  match l with
  | [] => Ok []
  | a :: t => b <- f a ;; bs <- mapM f t ;; Ok (b :: bs)
  end.

(* ================================================================= *)
(** ** Python built-ins *)

Module Py.

(** Truth value of an optional [str] argument: [None] and [""] are
    false, every other string is true. *)
Definition truthy (s : option string) : bool :=
  match s with
  | None => false
  | Some EmptyString => false
  | Some (String _ _) => true
  end.

(** [x == arg] for a string [x] and an optional [str] argument. *)
Definition str_eq (x : string) (arg : option string) : bool :=
  match arg with
  | Some s => String.eqb x s
  | None => false
  end.

(** [x in l] for a list of strings. *)
Definition contains (l : list string) (x : string) : bool :=
  existsb (String.eqb x) l.

(** [Series.unique()]: the distinct values in order of first appearance. *)
Fixpoint unique {A} (eqb : A -> A -> bool) (l : list A) : list A :=
  match l with
  | [] => []
  | x :: t => x :: filter (fun y => negb (eqb x y)) (unique eqb t)
  end.

(** [sorted(l)]: a stable sort; on a total order its result is the one
    sorted arrangement in which equal items keep their order. *)
Fixpoint insert {A} (le : A -> A -> bool) (x : A) (l : list A) : list A :=
  match l with
  | [] => [x]
  | y :: t => if le x y then x :: y :: t else y :: insert le x t
  end.

Definition sorted {A} (le : A -> A -> bool) (l : list A) : list A :=
  fold_right (insert le) [] l.

(** [sorted(l, reverse=True)]: descending, still stable. *)
Definition sorted_reverse {A} (le : A -> A -> bool) (l : list A) : list A :=
  rev (sorted le (rev l)).

(** [repr] of a [str] that holds no quote, backslash or unprintable
    character, which is the case of every name in [NEEDED_COLS]. *)
Definition repr_str (s : string) : string := "'" ++ s ++ "'".

(** [repr] of a list of such strings, as an f-string formats it. *)
Definition repr_list (l : list string) : string :=
  "[" ++ String.concat ", " (map repr_str l) ++ "]".

End Py.

(* ================================================================= *)
(** ** Records and tables of the query layer *)

(** One season of one team, typed as the loaded dataset has it. *)
Record Row : Type := mkRow {
  Year : Z;
  League : string;
  Team : string;
  Games : Z;
  Wins : Z;
  Losses : Z;
  Draws : Z;
  WinRate : float
}.

Definition Table : Type := list Row.

(* ================================================================= *)
(** ** Sorting a frame by one column *)

(** [ndarray.argsort(kind=...)]: given the order of the element type,
    the positions of the items in ascending order.  [sort_values] is
    called without [kind], so this is numpy's default quicksort. *)
Definition Argsort : Type := forall K : Type, (K -> K -> bool) -> list K -> list nat.

(** Boolean mask selection, [a[mask]]. *)
Fixpoint select {A} (mask : list bool) (a : list A) : list A :=
  match mask, a with
  | m :: mask', x :: a' => if m then x :: select mask' a' else select mask' a'
  | _, _ => []
  end.

(** Positional selection, [a[positions]]; a position past the end
    raises [IndexError]. *)
Definition take {A} (a : list A) (positions : list nat) : result (list A) :=
  mapM (fun i => match nth_error a i with
                 | Some x => Ok x
                 | None => Raise IndexError
                 end) positions.

(** [pandas.core.sorting.nargsort(items, kind, ascending, "last")]:
    the missing values are set aside, the others are sorted ascending
    (for a descending sort: reversed, sorted, and reversed again), and
    the missing ones are put last in their original order. *)
Definition nargsort (argsort : Argsort) {K} (isna : K -> bool)
    (le : K -> K -> bool) (ascending : bool) (items : list K) : result (list nat) :=
  let mask := map isna items in
  let idx := seq 0 (List.length items) in
  let non_nans := select (map negb mask) items in
  let non_nan_idx := select (map negb mask) idx in
  let nan_idx := select mask idx in
  let non_nans := if ascending then non_nans else rev non_nans in
  let non_nan_idx := if ascending then non_nan_idx else rev non_nan_idx in
  indexer <- take non_nan_idx (argsort K le non_nans) ;;
  let indexer := if ascending then indexer else rev indexer in
  Ok (indexer ++ nan_idx).

(** [df.sort_values(by, ascending=...).reset_index(drop=True)] for one
    key column [by]. *)
Definition sort_values (argsort : Argsort) {A K} (by_ : A -> K) (isna : K -> bool)
    (le : K -> K -> bool) (ascending : bool) (df : list A) : result (list A) :=
  indexer <- nargsort argsort isna le ascending (map by_ df) ;;
  take df indexer.

(* ================================================================= *)
(** ** Query layer *)

Definition all_leagues : string := "全体".
Definition all_teams : string := "（全チーム）".

Definition years (df : Table) : list Z :=
  Py.sorted_reverse Z.leb (Py.unique Z.eqb (map Year df)).

Definition leagues (df : Table) : list string :=
  Py.sorted String.leb (Py.unique String.eqb (map League df)).

Definition teams (df : Table) (year : option Z) (league : option string) : list string :=
  let q := df in
  let q := match year with
           | Some y => filter (fun r => Z.eqb (Year r) y) q
           | None => q
           end in
  let q := if Py.truthy league
           then filter (fun r => Py.str_eq (League r) league) q else q in
  Py.sorted String.leb (Py.unique String.eqb (map Team q)).

Definition filter_table (argsort : Argsort) (df : Table) (year : Z)
    (league team : option string) : result Table :=
  let q := filter (fun r => Z.eqb (Year r) year) df in
  let q := if Py.truthy league && negb (Py.str_eq all_leagues league)
           then filter (fun r => Py.str_eq (League r) league) q else q in
  let q := if Py.truthy team && negb (Py.str_eq all_teams team)
           then filter (fun r => Py.str_eq (Team r) team) q else q in
  sort_values argsort WinRate F64.isna F64.le false q.

Definition team_trend (argsort : Argsort) (df : Table) (team : string) : result Table :=
  let t := filter (fun r => String.eqb (Team r) team) df in
  sort_values argsort Year (fun _ => false) Z.leb true t.

(* ================================================================= *)
(** ** The sidebar and the overview of [app.py] *)

(** The league [teams] is asked for: [None if lg == "全体" else lg]. *)
Definition league_argument (lg : string) : option string :=
  if String.eqb lg all_leagues then None else Some lg.

(** The options of the team box: the sentinel, then the teams of the
    chosen year and league. *)
Definition team_options (src_df : Table) (y : Z) (lg : string) : list string :=
  all_teams :: teams src_df (Some y) (league_argument lg).

(** [view.iloc[0]], which the overview reads when the view is not
    empty. *)
Definition top_row (view : Table) : option Row := hd_error view.

(* ================================================================= *)
(** ** Frames, CSV text and the library environment *)

(** A value held by a frame: an [int64], a [float64] or a [str]. *)
Inductive cell : Type :=
| CInt (z : Z)
| CFloat (f : float)
| CStr (s : string).

(** A [DataFrame]: the column labels and the rows, each row holding one
    cell per column. *)
Record DataFrame : Type := mkFrame {
  columns : list string;
  rows : list (list cell)
}.

(** [pd.DataFrame()] *)
Definition empty_frame : DataFrame := mkFrame [] [].

(** What a file or a byte buffer holds: CSV text, seen as its records of
    fields (separators, quoting and the byte-order mark removed), or
    bytes that are no such text. *)
Inductive content : Type :=
| Garbled
| Text (records : list (list string)).

(** A [dict] with [str] keys, in insertion order. *)
Definition dict : Type := list (string * cell).

(** The functions of pandas, numpy and Python that the data layer
    relies on without fixing them:
    - [fmt]: the text [to_csv] writes for one value;
    - [labels]: the column labels [read_csv] makes of the header
      fields (a repeated or empty field is renamed);
    - [infer]: the values [read_csv] gives to the fields of one column
      (the column's dtype is inferred from all of its fields);
    - [int_of_str], [float_of_str]: [int(s)] and [float(s)];
    - [float_to_int]: the C cast of a finite [float64] to [int64];
    - [str_dict]: [str(d)] of a dict. *)
Record Env : Type := mkEnv {
  fmt : cell -> string;
  labels : list string -> list string;
  infer : list string -> list cell;
  int_of_str : string -> option Z;
  float_of_str : string -> option float;
  float_to_int : float -> Z;
  str_dict : dict -> string
}.

(** The two files under [DATA_DIR], [npb_stats.csv] and [records.csv],
    each absent or with its content. *)
Record Folder : Type := mkFolder {
  src : option content;
  db : option content
}.

(** The persistent state the module reaches through [DATA_DIR],
    [SRC_PATH] and [DB_PATH]: the directory, absent or with its files;
    the local time as [strftime("%Y-%m-%d %H:%M:%S")] prints it; and
    whether the storage takes writes, that is, whether a missing
    directory can be made and the history file be created or opened
    for appending. *)
Record World : Type := mkWorld {
  data_dir : option Folder;
  clock : string;
  writable : bool
}.

(** What is at [SRC_PATH] and at [DB_PATH]: without the directory,
    nothing. *)
Definition src_file (w : World) : option content :=
  match data_dir w with
  | Some d => src d
  | None => None
  end.

Definition db_file (w : World) : option content :=
  match data_dir w with
  | Some d => db d
  | None => None
  end.

Definition NEEDED_COLS : list string :=
  ["Year"; "League"; "Team"; "Games"; "Wins"; "Losses"; "Draws"; "WinRate"].

(** *** Reading CSV text *)

(** The tokenizer's check of one record against the expected number
    of fields: a longer record is an error, a shorter one is completed
    with empty fields. *)
Fixpoint tokenize (width : nat) (records : list (list string))
  : result (list (list string)) :=
  match records with
  | [] => Ok []
  | r :: t =>
      if (width <? List.length r)%nat then Raise ParserError
      else rest <- tokenize width t ;;
           Ok ((r ++ repeat EmptyString (width - List.length r)) :: rest)
  end.

(** Column-wise conversion of a grid of fields that is [width] wide;
    [infer] keeps the length of a column. *)
Definition infer_grid (E : Env) (width : nat) (grid : list (list string))
  : list (list cell) :=
  let cols := map (fun j => infer E (map (fun r => nth j r EmptyString) grid))
                  (seq 0 width) in
  map (fun i => map (fun col => nth i col (CFloat nan)) cols)
      (seq 0 (List.length grid)).

(** [pd.read_csv] with its defaults.  The first record is the header.
    The first data record may be longer than the header, and then its
    leading fields (and those of every record) become the row index,
    which is dropped here; no later record may be longer than that. *)
Definition read_csv (E : Env) (c : content) : result DataFrame :=
  match c with
  | Garbled => Raise ParserError
  | Text [] => Raise EmptyDataError
  | Text (header :: data) =>
      let h := List.length header in
      let w := match data with
               | [] => h
               | first :: _ => Nat.max h (List.length first)
               end in
      grid <- tokenize w data ;;
      Ok (mkFrame (labels E header) (infer_grid E h (map (skipn (w - h)) grid)))
  end.

(** [pd.read_csv(path)] *)
Definition read_path (E : Env) (file : option content) : result DataFrame :=
  match file with
  | None => Raise FileNotFoundError
  | Some c => read_csv E c
  end.

(** *** Writing CSV text *)

(** [df.to_csv(..., header=..., index=False)] for a frame with at least
    one column: the records written. *)
Definition to_csv (E : Env) (header : bool) (df : DataFrame) : list (list string) :=
  (if header then [columns df] else []) ++ map (map (fmt E)) (rows df).

(** Opening in mode ["a"] and writing. *)
Definition append_text (c : content) (records : list (list string)) : content :=
  match c with
  | Garbled => Garbled
  | Text old => Text (old ++ records)
  end.

(** *** Column operations *)

Fixpoint position (c : string) (cols : list string) : option nat :=
  match cols with
  | [] => None
  | x :: t => if String.eqb x c then Some 0%nat
              else option_map S (position c t)
  end.

(** [df[c] = f(df[c])], for an element-wise [f] that may raise. *)
Definition assign_column (c : string) (f : cell -> result cell) (df : DataFrame)
  : result DataFrame :=
  match position c (columns df) with
  | None => Raise KeyError
  | Some j =>
      rows' <- mapM (fun r =>
                 match nth_error r j with
                 | Some x => y <- f x ;; Ok (firstn j r ++ y :: skipn (S j) r)
                 | None => Raise IndexError
                 end) (rows df) ;;
      Ok (mkFrame (columns df) rows')
  end.

(** [df[c]] as the list of its values. *)
Definition column (c : string) (df : DataFrame) : list cell :=
  match position c (columns df) with
  | None => []
  | Some j => map (fun r => nth j r (CFloat nan)) (rows df)
  end.

(** [df.insert(loc, name, value)] with a scalar [value]; a label that is
    already a column is refused. *)
Definition insert_column (loc : nat) (name : string) (value : cell) (df : DataFrame)
  : result DataFrame :=
  if Py.contains (columns df) name
  then Raise (ValueError ("cannot insert " ++ name ++ ", already exists"))
  else Ok (mkFrame (firstn loc (columns df) ++ name :: skipn loc (columns df))
                   (map (fun r => firstn loc r ++ value :: skipn loc r) (rows df))).

(** Conversion of an integer to [float64], rounding to nearest. *)
Definition float_of_Z (z : Z) : float :=
  SF2Prim (binary_normalize prec emax z 0 false).

(** The range of [int64], and the value an integer has when its low 64
    bits are read as an [int64]. *)
Definition in_int64 (z : Z) : bool :=
  (- 2 ^ 63 <=? z)%Z && (z <? 2 ^ 63)%Z.

Definition wrap_int64 (z : Z) : Z :=
  ((z + 2 ^ 63) mod 2 ^ 64 - 2 ^ 63)%Z.

(** [.astype(int)] on one value.  An integer column is [int64], which
    stays, or [uint64], whose values above the range wrap around; a
    float must be finite; the text of an object column goes through
    [int(s)] and must fit [int64]. *)
Definition astype_int (E : Env) (c : cell) : result cell :=
  match c with
  | CInt z => Ok (CInt (wrap_int64 z))
  | CFloat f => if is_finite f then Ok (CInt (float_to_int E f)) else Raise CastError
  | CStr s => match int_of_str E s with
              | Some z => if in_int64 z then Ok (CInt z) else Raise CastError
              | None => Raise CastError
              end
  end.

(** [.astype(float)] on one value. *)
Definition astype_float (E : Env) (c : cell) : result float :=
  match c with
  | CInt z => Ok (float_of_Z z)
  | CFloat f => Ok f
  | CStr s => match float_of_str E s with
              | Some f => Ok f
              | None => Raise CastError
              end
  end.

(** [.astype(float).clip(0, 1)] on one value. *)
Definition clip_rate (E : Env) (c : cell) : result cell :=
  f <- astype_float E c ;; Ok (CFloat (F64.clip 0 1 f)).

(* ================================================================= *)
(** ** Loading, importing, recording *)

(** [os.makedirs(DATA_DIR, exist_ok=True)]: nothing to do when the
    directory is there; otherwise it is made, empty, or the call
    raises. *)
Definition ensure_dirs (w : World) : World * result unit :=
  match data_dir w with
  | Some _ => (w, Ok tt)
  | None =>
      if writable w
      then (mkWorld (Some (mkFolder None None)) (clock w) (writable w), Ok tt)
      else (w, Raise OSError)
  end.

Definition missing_columns (df : DataFrame) : list string :=
  filter (fun c => negb (Py.contains (columns df) c)) NEEDED_COLS.

Definition is_empty {A} (l : list A) : bool :=
  match l with
  | [] => true
  | _ :: _ => false
  end.

Definition _read_csv_strict (E : Env) (path : option content) : result DataFrame :=
  df <- read_path E path ;;
  let missing := missing_columns df in
  if negb (is_empty missing)
  then Raise (ValueError ("CSVの列が不足しています: " ++ Py.repr_list missing
                          ++ " / 期待: " ++ Py.repr_list NEEDED_COLS))
  else Ok df.

Definition load_source (E : Env) (w : World) : World * result DataFrame :=
  let (w, made) := ensure_dirs w in
  (w,
   _ <- made ;;
   df <- _read_csv_strict E (src_file w) ;;
   df <- assign_column "Year" (astype_int E) df ;;
   df <- fold_left (fun acc c => df <- acc ;; assign_column c (astype_int E) df)
                   ["Games"; "Wins"; "Losses"; "Draws"] (Ok df) ;;
   assign_column "WinRate" (clip_rate E) df).

Definition import_uploaded_csv (E : Env) (bytes_obj : content) (w : World)
  : World * result DataFrame :=
  (w,
   df <- read_csv E bytes_obj ;;
   let missing := missing_columns df in
   if negb (is_empty missing)
   then Raise (ValueError ("アップロードCSVの列が不足: " ++ Py.repr_list missing))
   else Ok df).

(** [to_csv(DB_PATH, ...)] opens the file before it writes: on storage
    that takes no writes the call raises and the file is as it was;
    otherwise the file holds [text] afterwards. *)
Definition write_db (w : World) (text : content) : World * result unit :=
  if writable w
  then (mkWorld (Some (mkFolder (src_file w) (Some text))) (clock w) (writable w),
        Ok tt)
  else (w, Raise OSError).

Definition snapshot_to_db (E : Env) (df_view : DataFrame) (meta : dict) (w : World)
  : World * result unit :=
  let (w, made) := ensure_dirs w in
  match made with
  | Raise e => (w, Raise e)
  | Ok _ =>
      let stamp := clock w in
      match
        out <- insert_column 0 "_saved_at" (CStr stamp) df_view ;;
        insert_column 1 "_meta" (CStr (str_dict E meta)) out
      with
      | Raise e => (w, Raise e)
      | Ok out =>
          match db_file w with
          | Some old => write_db w (append_text old (to_csv E false out))
          | None => write_db w (Text (to_csv E true out))
          end
      end
  end.

Definition load_db (E : Env) (w : World) : World * result DataFrame :=
  match db_file w with
  | None => (w, Ok empty_frame)
  | Some c => (w, read_csv E c)
  end.

(* ================================================================= *)
(** ** Frames as typed tables *)

Definition all_some {A} (l : list (option A)) : option (list A) :=
  fold_right (fun o acc => match o, acc with
                           | Some x, Some t => Some (x :: t)
                           | _, _ => None
                           end) (Some []) l.

(** The cell of row [r] under the label [c]. *)
Definition cell_at (df : DataFrame) (r : list cell) (c : string) : option cell :=
  match position c (columns df) with
  | Some j => nth_error r j
  | None => None
  end.

(** A row of a loaded frame as a record: the required columns, with the
    types [load_source] gives them and text for [League] and [Team]. *)
Definition row_of (df : DataFrame) (r : list cell) : option Row :=
  match cell_at df r "Year", cell_at df r "League", cell_at df r "Team",
        cell_at df r "Games", cell_at df r "Wins", cell_at df r "Losses",
        cell_at df r "Draws", cell_at df r "WinRate" with
  | Some (CInt y), Some (CStr l), Some (CStr t),
    Some (CInt g), Some (CInt w), Some (CInt lo),
    Some (CInt d), Some (CFloat rate) => Some (mkRow y l t g w lo d rate)
  | _, _, _, _, _, _, _, _ => None
  end.

Definition table_of_frame (df : DataFrame) : option Table :=
  all_some (map (row_of df) (rows df)).

Definition cells_of (r : Row) : list cell :=
  [CInt (Year r); CStr (League r); CStr (Team r); CInt (Games r);
   CInt (Wins r); CInt (Losses r); CInt (Draws r); CFloat (WinRate r)].

Definition frame_of_table (t : Table) : DataFrame :=
  mkFrame NEEDED_COLS (map cells_of t).

(* ================================================================= *)
(** ** Instances of the parameters *)

(** The order of (position, key) pairs by their keys. *)
Definition by_key {K} (le : K -> K -> bool) (a b : nat * K) : bool :=
  le (snd a) (snd b).

(** A stable sorting routine, as [kind="stable"] would select: the
    positions are sorted by key with an insertion sort, so equal keys
    keep the order of their positions. *)
Definition stable_argsort : Argsort :=
  fun K le ks =>
    map fst (Py.sorted (by_key le) (combine (seq 0 (List.length ks)) ks)).

(** A sorting routine that is correct but not stable: equal keys come
    out in the reverse of their input order. *)
Definition unstable_argsort : Argsort :=
  fun K le ks =>
    map fst (Py.sorted (by_key le) (rev (combine (seq 0 (List.length ks)) ks))).

(** A reference environment: Python's [int], [float], [str] and
    [repr] on numbers and plain text, and [to_csv] and [read_csv] on
    columns of integers, of floats and of text.  What it leaves out is
    named where it is left out. *)
Module Ref.

(** *** Numerals *)

Definition digit (c : ascii) : option Z :=
  let n := Z.of_nat (nat_of_ascii c) in
  if (48 <=? n)%Z && (n <=? 57)%Z then Some (n - 48)%Z else None.

(** The leading digits of [s]: their value after [acc], their number
    after [count], and the rest of [s]. *)
Fixpoint digits (acc : Z) (count : nat) (s : string) : Z * nat * string :=
  match s with
  | String c t =>
      match digit c with
      | Some d => digits (10 * acc + d) (S count) t
      | None => (acc, count, s)
      end
  | EmptyString => (acc, count, s)
  end.

(** An optional sign: whether it is a minus, and the rest. *)
Definition sign (s : string) : bool * string :=
  match s with
  | String "-" t => (true, t)
  | String "+" t => (false, t)
  | _ => (false, s)
  end.

Definition is_space (c : ascii) : bool :=
  let n := nat_of_ascii c in
  (n =? 32)%nat || ((9 <=? n)%nat && (n <=? 13)%nat).

Fixpoint lstrip (s : string) : string :=
  match s with
  | String c t => if is_space c then lstrip t else s
  | EmptyString => s
  end.

Fixpoint rstrip (s : string) : string :=
  match s with
  | String c t =>
      match rstrip t with
      | EmptyString => if is_space c then EmptyString else String c EmptyString
      | t' => String c t'
      end
  | EmptyString => EmptyString
  end.

Definition strip (s : string) : string := lstrip (rstrip s).

Definition lower (c : ascii) : ascii :=
  let n := nat_of_ascii c in
  if (65 <=? n)%nat && (n <=? 90)%nat then ascii_of_nat (n + 32) else c.

Fixpoint lowercase (s : string) : string :=
  match s with
  | String c t => String (lower c) (lowercase t)
  | EmptyString => EmptyString
  end.

(** [int(s)]: blanks around, a sign, digits.  (Underscores between
    digits are left out.) *)
Definition parse_int (s : string) : option Z :=
  let (negative, t) := sign (strip s) in
  match digits 0 0 t with
  | (n, S _, EmptyString) => Some (if negative then - n else n)%Z
  | _ => None
  end.

(** [str(z)] *)
Definition print_int (z : Z) : string :=
  NilZero.string_of_int (Z.to_int z).

Definition print_nat (z : Z) : string :=
  NilZero.string_of_uint (N.to_uint (Z.to_N z)).

(** *** Binary64 and decimal numerals *)

(** The binary64 value nearest to [n / d], ties to even, for [0 <= n]
    and [0 < d]: the quotient is taken with at least 64 bits and one
    more bit that tells whether a remainder is left, and rounded
    once. *)
Definition nearest (n d : Z) : float :=
  let k := Z.max 0 (64 + Z.log2 d - Z.log2 n) in
  let q := (n * 2 ^ k / d)%Z in
  let sticky := if (n * 2 ^ k mod d =? 0)%Z then 0%Z else 1%Z in
  SF2Prim (binary_normalize prec emax (2 * q + sticky) (- k - 1) false).

(** The value nearest to [m * 10 ^ x]. *)
Definition scaled (m x : Z) : float :=
  if (0 <=? x)%Z then nearest (m * 10 ^ x) 1 else nearest m (10 ^ (- x)).

(** The exponent part of a numeral, absent or [e], a sign and digits. *)
Definition exponent (s : string) : option Z :=
  match s with
  | EmptyString => Some 0%Z
  | String c t =>
      if Ascii.eqb (lower c) "e" then
        let (negative, u) := sign t in
        match digits 0 0 u with
        | (x, S _, EmptyString) => Some (if negative then - x else x)%Z
        | _ => None
        end
      else None
  end.

(** Digits with at most one point among them and an exponent part, read
    as the nearest binary64 value. *)
Definition numeral (s : string) : option float :=
  let '(m1, n1, t) := digits 0 0 s in
  let '(m, n2, u) :=
    match t with
    | String "." t' => digits m1 0 t'
    | _ => (m1, O, t)
    end in
  match (n1 + n2)%nat, exponent u with
  | S _, Some x => Some (scaled m (x - Z.of_nat n2))
  | _, _ => None
  end.

(** [float(s)]: blanks around, a sign, and [nan], [inf], [infinity] in
    any case or a numeral.  (Underscores between digits are left
    out.) *)
Definition parse_float (s : string) : option float :=
  let (negative, t) := sign (strip s) in
  let name := lowercase t in
  let magnitude :=
    if String.eqb name "nan" then Some nan
    else if String.eqb name "inf" || String.eqb name "infinity" then Some infinity
    else numeral t in
  option_map (fun f => if negative then (- f)%float else f) magnitude.

(** Truncation of a finite float towards zero. *)
Definition trunc (f : float) : Z :=
  match Prim2SF f with
  | S754_finite s m e =>
      let a := if (0 <=? e)%Z then (Z.pos m * 2 ^ e)%Z
               else (Z.pos m / 2 ^ (- e))%Z in
      if s then (- a)%Z else a
  | _ => 0%Z
  end.

(** The cast of a finite float to [int64]: truncation.  (C leaves the
    cast of a value out of range open; numpy on x86-64 gives the least
    [int64] then.) *)
Definition cast_int64 (f : float) : Z :=
  let z := trunc f in
  if in_int64 z then z else (- 2 ^ 63)%Z.

(** *** [repr] of a float

    [repr(f)] is the shortest decimal numeral that [float] reads back
    as [f], the one nearest to [f] if there are several, written with
    an exponent when [f] is at least [1e16] or below [1e-4] in size. *)

(** [n / d < 10 ^ p] *)
Definition below_pow10 (n d p : Z) : bool :=
  if (0 <=? p)%Z then (n <? d * 10 ^ p)%Z else (n * 10 ^ (- p) <? d)%Z.

(** The least [p] from [p] on with [n / d < 10 ^ p]. *)
Fixpoint decimal_point (fuel : nat) (n d p : Z) : Z :=
  match fuel with
  | O => p
  | S fuel' => if below_pow10 n d p then p else decimal_point fuel' n d (p + 1)
  end.

(** A [p] with [10 ^ (p - 1) <= n / d], a few below the least one with
    [n / d < 10 ^ p]: the binary logarithm times [log10 2], rounded
    down with a margin. *)
Definition decimal_estimate (n d : Z) : Z :=
  ((Z.log2 n - Z.log2 d - 1) * 30103 / 100000 - 1)%Z.

(** The numeral of [k] digits that reads back as [f], if there is one:
    [c] stands for [c * 10 ^ (p - k)], where [f = n / d] and
    [10 ^ (p - 1) <= f < 10 ^ p].  Only the two numerals of [k] digits
    next to [f] can read back as [f]. *)
Definition candidate (f : float) (n d p k : Z) : option Z :=
  let N := if (0 <=? k - p)%Z then (n * 10 ^ (k - p))%Z else n in
  let D := if (0 <=? k - p)%Z then d else (d * 10 ^ (p - k))%Z in
  let lo := (N / D)%Z in
  let hi := (lo + 1)%Z in
  let reads c := PrimFloat.eqb (scaled c (p - k)) f in
  let r := (2 * (N mod D))%Z in
  match reads lo, reads hi with
  | true, true => Some (if (r <? D)%Z then lo
                        else if (D <? r)%Z then hi
                        else if Z.even lo then lo else hi)
  | true, false => Some lo
  | false, true => Some hi
  | false, false => None
  end.

(** The shortest such numeral, from [k] digits on; 17 digits always
    suffice. *)
Fixpoint shortest (fuel : nat) (f : float) (n d p k : Z) : Z * Z :=
  match fuel with
  | O => ((n * 10 ^ (17 - p) / d)%Z, 17%Z)
  | S fuel' =>
      match candidate f n d p k with
      | Some c => (c, k)
      | None => shortest fuel' f n d p (k + 1)
      end
  end.

Fixpoint strip_zeros (fuel : nat) (c : Z) : Z :=
  match fuel with
  | O => c
  | S fuel' => if (c mod 10 =? 0)%Z then strip_zeros fuel' (c / 10) else c
  end.

Fixpoint zeros (n : nat) : string :=
  match n with
  | O => EmptyString
  | S n' => String "0" (zeros n')
  end.

(** The digits [0.d1d2... * 10 ^ decpt] as [repr] lays them out. *)
Definition format_short (digits : string) (decpt : Z) : string :=
  let n := Z.of_nat (String.length digits) in
  if (decpt <=? -4)%Z || (16 <? decpt)%Z then
    let x := (decpt - 1)%Z in
    let mantissa :=
      match digits with
      | String c (String c' t) => String c (String "." (String c' t))
      | _ => digits
      end in
    mantissa ++ "e" ++ (if (x <? 0)%Z then "-" else "+")
      ++ (if (Z.abs x <? 10)%Z then "0" else "") ++ print_nat (Z.abs x)
  else if (decpt <=? 0)%Z then
    "0." ++ zeros (Z.to_nat (- decpt)) ++ digits
  else if (n <=? decpt)%Z then
    digits ++ zeros (Z.to_nat (decpt - n)) ++ ".0"
  else
    substring 0 (Z.to_nat decpt) digits ++ "."
      ++ substring (Z.to_nat decpt) (Z.to_nat (n - decpt)) digits.

(** [repr(f)] *)
Definition print_float (f : float) : string :=
  match Prim2SF f with
  | S754_nan => "nan"
  | S754_infinity s => if s then "-inf" else "inf"
  | S754_zero s => if s then "-0.0" else "0.0"
  | S754_finite s m e =>
      let n := if (0 <=? e)%Z then (Z.pos m * 2 ^ e)%Z else Z.pos m in
      let d := if (0 <=? e)%Z then 1%Z else (2 ^ (- e))%Z in
      let p := decimal_point 8 n d (decimal_estimate n d) in
      let (c, k) := shortest 17 (abs f) n d p 1 in
      let width := Z.of_nat (String.length (print_nat c)) in
      (if s then "-" else "")
        ++ format_short (print_nat (strip_zeros 17 c)) (p + (width - k))
  end.

(** *** CSV fields *)

(** The text [to_csv] writes for a value: [str] of an integer, the
    text itself, [repr] of a float, and nothing for a missing value. *)
Definition print_cell (c : cell) : string :=
  match c with
  | CInt z => print_int z
  | CStr s => s
  | CFloat f => if F64.isna f then EmptyString else print_float f
  end.

(** The fields [read_csv] takes for missing values. *)
Definition na_values : list string :=
  [""; "#N/A"; "#N/A N/A"; "#NA"; "-1.#IND"; "-1.#QNAN"; "-NaN"; "-nan";
   "1.#IND"; "1.#QNAN"; "<NA>"; "N/A"; "NA"; "NULL"; "NaN"; "None"; "n/a";
   "nan"; "null"].

Definition missing (s : string) : bool := Py.contains na_values s.

(** A field of an integer column. *)
Definition read_int (s : string) : option Z :=
  if missing s then None else parse_int s.

(** A field of a float column: a missing value or a number.  (The
    number is taken as the nearest binary64 value, which pandas'
    converter gives for numerals of up to 15 digits with a decimal
    exponent of at most 22 in size.) *)
Definition read_float (s : string) : option float :=
  if missing s then Some nan else parse_float s.

(** The values of a column, of the first dtype that takes every field:
    [int64], [uint64], [float64] (a missing value is [NaN]), and
    otherwise [object], where a field is a missing value or its text.
    (Columns of truth values are left out: they come out as text.) *)
Definition infer_column (fields : list string) : list cell :=
  let ints := all_some (map read_int fields) in
  let fits zs := forallb in_int64 zs
                 || forallb (fun z => (0 <=? z)%Z && (z <? 2 ^ 64)%Z) zs in
  match ints with
  | Some zs =>
      if fits zs then map CInt zs
      else map (fun z => CFloat (float_of_Z z)) zs
  | None =>
      match all_some (map read_float fields) with
      | Some fs => map CFloat fs
      | None => map (fun s => if missing s then CFloat nan else CStr s) fields
      end
  end.

(** [repr] of a value of the meta mapping. *)
Definition repr_cell (c : cell) : string :=
  match c with
  | CInt z => print_int z
  | CStr s => Py.repr_str s
  | CFloat f => print_float f
  end.

(** [str(d)] *)
Definition print_dict (d : dict) : string :=
  "{" ++ String.concat ", "
           (map (fun kv => (Py.repr_str (fst kv) ++ ": " ++ repr_cell (snd kv))%string) d)
      ++ "}".

(** The header fields of the sample files are distinct and not empty,
    and such fields are the labels as they stand.  (The renaming of
    repeated and empty header fields is left out.) *)
Definition env : Env :=
  mkEnv print_cell (fun header => header) infer_column
        parse_int parse_float cast_int64 print_dict.

End Ref.

(* ================================================================= *)
(** ** Vocabulary of the specification *)

(** An order that is total and transitive on the items. *)
Definition preorder_on {K} (le : K -> K -> bool) (ks : list K) : Prop :=
  (forall x y, In x ks -> In y ks -> le x y = true \/ le y x = true) /\
  (forall x y z, In x ks -> In y ks -> In z ks ->
                 le x y = true -> le y z = true -> le x z = true).

Definition ascending {K} (le : K -> K -> bool) (l : list K) : Prop :=
  StronglySorted (fun x y => le x y = true) l.

(** What a sorting routine owes its caller, for such an order: its
    result lists every position once, and the items taken in that
    order ascend. *)
Definition admissible (argsort : Argsort) : Prop :=
  forall K (le : K -> K -> bool) (ks : list K),
    preorder_on le ks ->
    Permutation (argsort K le ks) (seq 0 (List.length ks)) /\
    forall taken, take ks (argsort K le ks) = Ok taken -> ascending le taken.

(** A stable routine moreover lists equal items by increasing position. *)
Definition ties_by_position {K} (le : K -> K -> bool) (ks : list K) (i j : nat) : Prop :=
  forall x y, nth_error ks i = Some x -> nth_error ks j = Some y ->
              le y x = true -> (i < j)%nat.

Definition stable (argsort : Argsort) : Prop :=
  forall K (le : K -> K -> bool) (ks : list K),
    preorder_on le ks ->
    StronglySorted (ties_by_position le ks) (argsort K le ks).

(** Two rows in descending order of [WinRate], a missing rate counting
    as the lowest. *)
Definition rate_desc (a b : Row) : Prop :=
  F64.isna (WinRate b) = true \/
  (F64.isna (WinRate a) = false /\ F64.le (WinRate b) (WinRate a) = true).

Definition sorted_by_rate_desc (t : Table) : Prop := StronglySorted rate_desc t.

(** In a stable sort of a list that is ordered by [S], [a] may stand
    before [b]: it is not greater, and if it is equal it came first. *)
Definition stably_before {A} (le : A -> A -> bool) (S : A -> A -> Prop) (a b : A)
  : Prop :=
  le a b = true /\ (le b a = true -> S a b).

(** Two keys tie when both are missing or they compare equal. *)
Definition key_tie {K} (isna : K -> bool) (le : K -> K -> bool) (x y : K) : Prop :=
  (isna x = true /\ isna y = true) \/ (le x y = true /\ le y x = true).

(** Positions [i] and [j] of [df] are in place: if their keys tie,
    [i] is the smaller one. *)
Definition ties_in_place {A K} (by_ : A -> K) (isna : K -> bool)
    (le : K -> K -> bool) (df : list A) (i j : nat) : Prop :=
  forall a b, nth_error df i = Some a -> nth_error df j = Some b ->
              key_tie isna le (by_ a) (by_ b) -> (i < j)%nat.

(** [out] rearranges [q], and rows whose [WinRate] tie keep the order
    they have in [q]. *)
Definition keeps_tie_order (q out : Table) : Prop :=
  exists indexer,
    take q indexer = Ok out /\
    Permutation indexer (seq 0 (List.length q)) /\
    StronglySorted (ties_in_place WinRate F64.isna F64.le q) indexer.

(** The order a sort was asked for. *)
Definition in_direction {K} (le : K -> K -> bool) (ascending : bool) (x y : K) : bool :=
  if ascending then le x y else le y x.

(** [x] stands at position [i] of [a]. *)
Definition item_at {A} (a : list A) (i : nat) (x : A) : Prop :=
  nth_error a i = Some x.

(** Whether a row passes a league or team selection: no selection, the
    empty string and the sentinel let every row pass. *)
Definition wanted (sentinel : string) (arg : option string) (value : string) : bool :=
  match arg with
  | None => true
  | Some s => if String.eqb s EmptyString || String.eqb s sentinel then true
              else String.eqb value s
  end.

(** The rows [filter_table] is to return, in the order of the table. *)
Definition selection (df : Table) (year : Z) (league team : option string) : Table :=
  filter (fun r => Z.eqb (Year r) year
                   && wanted all_leagues league (League r)
                   && wanted all_teams team (Team r)) df.

(** The selection read literally: every given string other than the
    sentinel restricts, the empty string included. *)
Definition wanted_literally (sentinel : string) (arg : option string) (value : string)
  : bool :=
  match arg with
  | None => true
  | Some s => if String.eqb s sentinel then true else String.eqb value s
  end.

Definition selection_literally (df : Table) (year : Z) (league team : option string)
  : Table :=
  filter (fun r => Z.eqb (Year r) year
                   && wanted_literally all_leagues league (League r)
                   && wanted_literally all_teams team (Team r)) df.

Definition sorted_by_year (t : Table) : Prop :=
  StronglySorted (fun a b => (Year a <= Year b)%Z) t.

(** The dtype of a value. *)
Definition is_int (c : cell) : bool :=
  match c with
  | CInt _ => true
  | _ => false
  end.

Definition is_float (c : cell) : bool :=
  match c with
  | CFloat _ => true
  | _ => false
  end.

(** The columns [load_source] casts to integers. *)
Definition INT_COLS : list string := ["Year"; "Games"; "Wins"; "Losses"; "Draws"].

(** [s] occurs in [t]. *)
Definition occurs_in (s t : string) : Prop :=
  exists pre post, t = (pre ++ s ++ post)%string.




(** A row of the history log: the row of the view behind the two
    columns a snapshot puts in front. *)
Definition augmented (stamp meta : string) (r : list cell) : list cell :=
  CStr stamp :: CStr meta :: r.

(** The rows of a frame as labelled records, [df.to_dict("records")]. *)
Definition records (df : DataFrame) : list (list (string * cell)) :=
  map (combine (columns df)) (rows df).

(** The last [n] of a list, as [df.tail(n)] takes rows. *)
Definition last_n {A} (n : nat) (l : list A) : list A :=
  skipn (List.length l - n) l.

(** The frame a snapshot writes for [view]. *)
Definition snapshot_frame (stamp meta : string) (view : DataFrame) : DataFrame :=
  mkFrame ("_saved_at" :: "_meta" :: columns view)
          (map (augmented stamp meta) (rows view)).

(** Every row has one cell per column. *)
Definition rectangular (df : DataFrame) : Prop :=
  Forall (fun r => List.length r = List.length (columns df)) (rows df).





(* ================================================================= *)
(** ** Sample data *)

Module Sample.

Definition central : string := "セ・リーグ".
Definition pacific : string := "パ・リーグ".

Definition team_a : Row := mkRow 2023 central "TeamA" 140 80 58 2 0.580.
Definition team_b : Row := mkRow 2023 central "TeamB" 140 70 68 2 0.507.
Definition team_c : Row := mkRow 2023 pacific "TeamC" 140 80 58 2 0.580.
Definition team_c_before : Row := mkRow 2022 pacific "TeamC" 143 60 80 3 0.429.

Definition season : Table := [team_b; team_c_before; team_a; team_c].

(** Two teams with the same rate. *)
Definition tied : Table := [team_a; team_c].

Definition header : list string := NEEDED_COLS.

(** A source file with a rate above 1, a rate below 0 and an empty
    rate field. *)
Definition source_text : content :=
  Text [ header;
         ["2023"; "Central"; "TeamA"; "140"; "80"; "58"; "2"; "1.58"];
         ["2023"; "Central"; "TeamB"; "140"; "70"; "68"; "2"; "-0.5"];
         ["2023"; "Pacific"; "TeamC"; "140"; "80"; "58"; "2"; "0.25"];
         ["2023"; "Pacific"; "TeamD"; "140"; "0"; "0"; "0"; ""] ].

(** An upload without the [Draws] column. *)
Definition upload_without_draws : content :=
  Text [ ["Year"; "League"; "Team"; "Games"; "Wins"; "Losses"; "WinRate"];
         ["2023"; "Central"; "TeamA"; "140"; "80"; "58"; "0.58"] ].

(** The table read from that upload. *)
Definition upload_frame : DataFrame :=
  mkFrame ["Year"; "League"; "Team"; "Games"; "Wins"; "Losses"; "WinRate"]
          [[CInt 2023; CStr "Central"; CStr "TeamA"; CInt 140; CInt 80; CInt 58;
            CFloat 0.58]].

Definition noon : string := "2024-04-01 12:00:00".

(** A first run: the source is there, no history yet. *)
Definition fresh : World :=
  mkWorld (Some (mkFolder (Some source_text) None)) noon true.

Definition selections : dict :=
  [("year", CInt 2023); ("league", CStr all_leagues); ("team", CStr all_teams)].

Definition view : DataFrame :=
  mkFrame ["Year"; "Team"; "Wins"]
          [[CInt 2023; CStr "TeamA"; CInt 80]; [CInt 2023; CStr "TeamB"; CInt 70]].



(** The world after a first snapshot of [view]. *)
Definition logged : World :=
  fst (snapshot_to_db Ref.env view selections fresh).

(** The same files five minutes later. *)
Definition later : World :=
  mkWorld (data_dir logged) "2024-04-01 12:05:00" true.

(** A view with one column more. *)
Definition view_wider : DataFrame :=
  mkFrame ["Year"; "Team"; "Wins"; "Losses"]
          [[CInt 2023; CStr "TeamA"; CInt 80; CInt 58]].

(** A history file that exists and is empty. *)
Definition touched : World :=
  mkWorld (Some (mkFolder (Some source_text) (Some (Text [])))) noon true.

(** A source whose second row has no year. *)
Definition source_without_year : content :=
  Text [ header;
         ["2023"; "Central"; "TeamA"; "140"; "80"; "58"; "2"; "0.58"];
         [""; "Central"; "TeamB"; "140"; "70"; "68"; "2"; "0.507"] ].

Definition year_missing : World :=
  mkWorld (Some (mkFolder (Some source_without_year) None)) noon true.

(** The table read from it: with a missing value the column of years
    is a float column. *)
Definition frame_without_year : DataFrame :=
  mkFrame header
          [[CFloat 2023; CStr "Central"; CStr "TeamA"; CInt 140; CInt 80; CInt 58;
            CInt 2; CFloat 0.58];
           [CFloat nan; CStr "Central"; CStr "TeamB"; CInt 140; CInt 70; CInt 68;
            CInt 2; CFloat 0.507]].





End Sample.

(* ================================================================= *)
(** * Properties *)

(** ** The order of binary64 values *)

Section FloatOrder.

Lemma SFcompare_antisym x y :
  SFcompare y x = option_map CompOpp (SFcompare x y).
Proof.
  destruct x as [s|s| |s m e], y as [s'|s'| |s' m' e']; simpl; auto;
    try (destruct s; reflexivity); try (destruct s'; reflexivity);
    try (destruct s, s'; reflexivity).
  destruct s, s'; simpl; auto; rewrite (Z.compare_antisym e e');
    destruct (e ?= e')%Z; simpl; auto;
    rewrite Pos.compare_cont_antisym; simpl; auto.
  now rewrite CompOpp_involutive.
Qed.

Lemma SFcompare_defined x y :
  x <> S754_nan -> y <> S754_nan -> SFcompare x y <> None.
Proof.
  destruct x as [s|s| |s m e], y as [s'|s'| |s' m' e']; simpl;
    intros Hx Hy; congruence.
Qed.

Lemma SFcompare_self x : x <> S754_nan -> SFcompare x x = Some Eq.
Proof.
  destruct x as [s|s| |s m e]; simpl; intros Hx; try congruence;
    destruct s; auto; now rewrite Z.compare_refl, Pos.compare_cont_refl.
Qed.

Lemma SFleb_trans x y z :
  SFleb x y = true -> SFleb y z = true -> SFleb x z = true.
Proof.
  unfold SFleb.
  destruct x as [s|s| |s m e], y as [s'|s'| |s' m' e'], z as [s''|s''| |s'' m'' e''];
    simpl; auto; try discriminate;
    try (destruct s; simpl; auto; discriminate);
    try (destruct s'; simpl; auto; discriminate);
    try (destruct s''; simpl; auto; discriminate);
    try (destruct s, s'; simpl; auto; discriminate);
    try (destruct s, s''; simpl; auto; discriminate);
    try (destruct s', s''; simpl; auto; discriminate);
    try (destruct s, s', s''; simpl; auto; discriminate).
  destruct s, s', s''; simpl; auto; try discriminate;
    destruct (Z.compare_spec e e'), (Z.compare_spec e' e''), (Z.compare_spec e e'');
    simpl; auto; try discriminate; try lia;
    rewrite ?Pos.compare_cont_spec; simpl;
    destruct (Pos.compare_spec m m'), (Pos.compare_spec m' m''), (Pos.compare_spec m m'');
    simpl; auto; try discriminate; try lia.
Qed.

Lemma isna_spec x : F64.isna x = true <-> Prim2SF x = S754_nan.
Proof.
  unfold F64.isna, is_nan. rewrite eqb_spec. unfold SFeqb.
  split.
  - intros H. destruct (Prim2SF x) eqn:E; auto;
      rewrite SFcompare_self in H by congruence; discriminate.
  - intros ->. reflexivity.
Qed.

Lemma isna_false x : F64.isna x = false <-> Prim2SF x <> S754_nan.
Proof.
  rewrite <- isna_spec. destruct (F64.isna x); split; congruence.
Qed.

Lemma f64_le_not_na x y :
  F64.le x y = true -> F64.isna x = false /\ F64.isna y = false.
Proof.
  unfold F64.le. rewrite leb_spec. unfold SFleb. intros H.
  rewrite !isna_false.
  split; intros E; rewrite E in H; simpl in H; try discriminate.
  destruct (Prim2SF x); discriminate.
Qed.

Lemma f64_le_total x y :
  F64.isna x = false -> F64.isna y = false ->
  F64.le x y = true \/ F64.le y x = true.
Proof.
  rewrite !isna_false. intros Hx Hy. unfold F64.le. rewrite !leb_spec.
  unfold SFleb. rewrite (SFcompare_antisym (Prim2SF x) (Prim2SF y)).
  pose proof (SFcompare_defined _ _ Hx Hy) as D.
  destruct (SFcompare (Prim2SF x) (Prim2SF y)) as [[ | | ]|]; simpl; auto; congruence.
Qed.

Lemma f64_le_trans x y z :
  F64.le x y = true -> F64.le y z = true -> F64.le x z = true.
Proof.
  unfold F64.le. rewrite !leb_spec. apply SFleb_trans.
Qed.

Lemma f64_le_refl x : F64.isna x = false -> F64.le x x = true.
Proof.
  intros H. destruct (f64_le_total x x H H); assumption.
Qed.






End FloatOrder.

(* ================================================================= *)
(** ** Positional selection *)

Lemma mapM_Forall2 {A B} (f : A -> result B) (l : list A) (bs : list B) :
  mapM f l = Ok bs <-> Forall2 (fun a b => f a = Ok b) l bs.
Proof.
  revert bs. induction l as [|a l IH]; intros bs; simpl.
  - split; intros H; [injection H as <-; constructor | inversion H; reflexivity].
  - split.
    + destruct (f a) as [b|e] eqn:Ea; simpl; [|discriminate].
      destruct (mapM f l) as [bs'|e] eqn:El; simpl; [|discriminate].
      intros H. injection H as <-. constructor; [assumption|]. now apply IH.
    + intros H. inversion H as [|a' b l' bs' Hab Hrest]; subst.
      rewrite Hab. simpl. apply IH in Hrest. rewrite Hrest. reflexivity.
Qed.

Lemma Forall2_perm {A B} (R : A -> B -> Prop) p p' b :
  Permutation p p' -> Forall2 R p b ->
  exists b', Forall2 R p' b' /\ Permutation b b'.
Proof.
  intros HP. revert b. induction HP; intros b H.
  - inversion H; subst. exists []. split; constructor.
  - inversion H as [|? y ? bt Hxy Ht]; subst.
    destruct (IHHP _ Ht) as (b' & H1 & H2).
    exists (y :: b'). split; constructor; assumption.
  - inversion H as [|? y1 ? bt H1 Ht]; subst.
    inversion Ht as [|? y2 ? bt' H2 Ht']; subst.
    exists (y2 :: y1 :: bt'). split; [repeat constructor; assumption | apply perm_swap].
  - destruct (IHHP1 _ H) as (b1 & H1 & P1).
    destruct (IHHP2 _ H1) as (b2 & H2 & P2).
    exists b2. split; [assumption | now transitivity b1].
Qed.

Lemma Forall2_rev' {A B} (R : A -> B -> Prop) l1 l2 :
  Forall2 R l1 l2 -> Forall2 R (rev l1) (rev l2).
Proof.
  induction 1; simpl; [constructor|].
  apply Forall2_app; [assumption | repeat constructor; assumption].
Qed.

Lemma Forall2_nth {A B} (R : A -> B -> Prop) l1 l2 k x :
  Forall2 R l1 l2 -> nth_error l1 k = Some x ->
  exists y, nth_error l2 k = Some y /\ R x y.
Proof.
  intros H. revert k. induction H; intros k Hk.
  - destruct k; discriminate.
  - destruct k as [|k]; simpl in *.
    + injection Hk as <-. eauto.
    + auto.
Qed.

Section ListFacts.

Context {A : Type}.

Lemma take_Forall2 (a : list A) p b :
  take a p = Ok b <-> Forall2 (item_at a) p b.
Proof.
  unfold take. rewrite mapM_Forall2. split; intros H.
  - eapply Forall2_impl; [|exact H]. intros i x. unfold item_at. simpl.
    destruct (nth_error a i); congruence.
  - eapply Forall2_impl; [|exact H]. intros i x. unfold item_at. simpl.
    intros ->. reflexivity.
Qed.

Lemma at_functional (a : list A) p b b' :
  Forall2 (item_at a) p b -> Forall2 (item_at a) p b' -> b = b'.
Proof.
  intros H. revert b'. induction H; intros b' H'; inversion H'; subst; auto.
  f_equal; [unfold item_at in *; congruence | auto].
Qed.

Lemma at_seq (pre a : list A) :
  Forall2 (item_at (pre ++ a)) (seq (List.length pre) (List.length a)) a.
Proof.
  revert pre. induction a as [|x a IH]; intros pre; simpl; constructor.
  - unfold item_at. rewrite nth_error_app2 by lia. now rewrite Nat.sub_diag.
  - specialize (IH (pre ++ [x])). rewrite <- app_assoc in IH. simpl in IH.
    rewrite length_app in IH. simpl in IH. now rewrite Nat.add_1_r in IH.
Qed.

Lemma take_seq (a : list A) : take a (seq 0 (List.length a)) = Ok a.
Proof. apply take_Forall2. exact (at_seq [] a). Qed.



Lemma take_perm (a : list A) p :
  Permutation p (seq 0 (List.length a)) ->
  exists b, take a p = Ok b /\ Permutation b a.
Proof.
  intros HP.
  destruct (Forall2_perm (item_at a) _ _ a (Permutation_sym HP) (at_seq [] a))
    as (b & Hb & Pb).
  exists b. split; [now apply take_Forall2 | now symmetry].
Qed.

Lemma take_app (a : list A) p1 p2 b1 b2 :
  take a p1 = Ok b1 -> take a p2 = Ok b2 -> take a (p1 ++ p2) = Ok (b1 ++ b2).
Proof.
  rewrite !take_Forall2. apply Forall2_app.
Qed.



Lemma take_rev (a : list A) p b :
  take a p = Ok b -> take a (rev p) = Ok (rev b).
Proof. rewrite !take_Forall2. apply Forall2_rev'. Qed.



End ListFacts.

Lemma take_map {A B} (f : A -> B) (a : list A) p b :
  take a p = Ok b -> take (map f a) p = Ok (map f b).
Proof.
  rewrite !take_Forall2. intros H. induction H; simpl; constructor; auto.
  unfold item_at in *. rewrite nth_error_map. now rewrite H.
Qed.

Lemma take_compose {A} (a : list A) (p : list nat) b o q :
  take a p = Ok b -> take p o = Ok q -> take a q = take b o.
Proof.
  rewrite !take_Forall2. intros Hb Hq.
  assert (exists c, Forall2 (item_at b) o c /\ Forall2 (item_at a) q c) as (c & H1 & H2).
  { induction Hq as [|k i o q Hki Hq IH].
    - exists []. split; constructor.
    - destruct IH as (c & H1 & H2).
      destruct (Forall2_nth _ _ _ _ _ Hb Hki) as (x & Hx & Hax).
      exists (x :: c). split; constructor; assumption. }
  apply take_Forall2 in H1, H2. congruence.
Qed.

Lemma select_map {A} (f : A -> bool) (a : list A) :
  select (map f a) a = filter f a.
Proof.
  induction a as [|x a IH]; simpl; [reflexivity|].
  destruct (f x); now rewrite IH.
Qed.

Lemma select_of_map {A B} (f : A -> B) m (a : list A) :
  select m (map f a) = map f (select m a).
Proof.
  revert m. induction a as [|x a IH]; intros [|b m]; simpl; auto.
  destruct b; simpl; now rewrite IH.
Qed.

Lemma select_In {A} m (a : list A) x : In x (select m a) -> In x a.
Proof.
  revert m. induction a as [|y a IH]; intros [|b m]; simpl; try tauto.
  destruct b; simpl; intros H; [destruct H|]; eauto.
Qed.

Lemma at_select {A} (pre a : list A) m :
  Forall2 (item_at (pre ++ a))
          (select m (seq (List.length pre) (List.length a))) (select m a).
Proof.
  revert pre m. induction a as [|x a IH]; intros pre m.
  - destruct m as [|b m]; simpl; constructor.
  - destruct m as [|b m]; simpl; [constructor|].
    assert (Forall2 (item_at (pre ++ x :: a))
              (select m (seq (S (List.length pre)) (List.length a))) (select m a)) as H.
    { specialize (IH (pre ++ [x]) m). rewrite <- app_assoc in IH. simpl in IH.
      rewrite length_app in IH. simpl in IH. now rewrite Nat.add_1_r in IH. }
    destruct b; [constructor|]; auto.
    unfold item_at. rewrite nth_error_app2 by lia. now rewrite Nat.sub_diag.
Qed.

Lemma take_select {A} (a : list A) m :
  take a (select m (seq 0 (List.length a))) = Ok (select m a).
Proof. apply take_Forall2. exact (at_select [] a m). Qed.

Lemma select_seq_sorted m s n : StronglySorted lt (select m (seq s n)).
Proof.
  revert m s. induction n as [|n IH]; intros [|b m] s; simpl; try constructor.
  destruct b; [|apply IH].
  constructor; [apply IH|].
  apply Forall_forall. intros x Hx. apply select_In, in_seq in Hx. lia.
Qed.

Lemma select_partition {A} m (l : list A) :
  List.length m = List.length l ->
  Permutation (select (map negb m) l ++ select m l) l.
Proof.
  revert m. induction l as [|x l IH]; intros [|b m] Hlen; simpl in *;
    try discriminate; [constructor|].
  injection Hlen as Hlen. destruct b; simpl.
  - apply Permutation_sym, Permutation_cons_app, Permutation_sym, IH, Hlen.
  - constructor. now apply IH.
Qed.

Section SortedFacts.

Context {A : Type}.

Lemma StronglySorted_app (R : A -> A -> Prop) l1 l2 :
  StronglySorted R l1 -> StronglySorted R l2 ->
  (forall x y, In x l1 -> In y l2 -> R x y) ->
  StronglySorted R (l1 ++ l2).
Proof.
  induction 1 as [|x l1 H1 IH F]; intros H2 Hc; simpl; [assumption|].
  constructor.
  - apply IH; [assumption|]. intros; apply Hc; simpl; auto.
  - apply Forall_app. split; [assumption|].
    apply Forall_forall. intros y Hy. apply Hc; simpl; auto.
Qed.

Lemma StronglySorted_rev (R : A -> A -> Prop) l :
  StronglySorted R l -> StronglySorted (fun x y => R y x) (rev l).
Proof.
  induction 1 as [|x l H IH F]; simpl; [constructor|].
  apply StronglySorted_app; [assumption | repeat constructor|].
  intros a b Ha [<-|[]]. rewrite Forall_forall in F. apply F. now apply in_rev.
Qed.

Lemma StronglySorted_nth (R : A -> A -> Prop) l a b x y :
  StronglySorted R l -> (a < b)%nat ->
  nth_error l a = Some x -> nth_error l b = Some y -> R x y.
Proof.
  intros H. revert a b. induction H as [|z l H IH F]; intros a b Hab Ha Hb.
  - destruct a; discriminate.
  - destruct b as [|b]; [lia|]. destruct a as [|a]; simpl in *.
    + injection Ha as <-. rewrite Forall_forall in F. eapply F, nth_error_In, Hb.
    + eapply IH; [|eassumption..]. lia.
Qed.

Lemma StronglySorted_impl (R R' : A -> A -> Prop) l :
  (forall x y, In x l -> In y l -> R x y -> R' x y) ->
  StronglySorted R l -> StronglySorted R' l.
Proof.
  intros Hi H. induction H as [|x l H IH F]; constructor.
  - apply IH. intros; apply Hi; simpl; auto.
  - rewrite Forall_forall in *. intros y Hy. apply Hi; simpl; auto.
Qed.

End SortedFacts.

(** Sortedness carried from positions to what stands at them. *)
Lemma StronglySorted_Forall2 {A B} (P : A -> B -> Prop)
    (R : A -> A -> Prop) (R' : B -> B -> Prop) l l' :
  (forall a b x y, P a x -> P b y -> R a b -> R' x y) ->
  Forall2 P l l' -> StronglySorted R l -> StronglySorted R' l'.
Proof.
  intros Hc H. induction H as [|a x l l' Hax H IH]; intros HS; [constructor|].
  inversion HS as [|? ? HS' F]; subst. constructor; [auto|].
  rewrite Forall_forall in *. intros y Hy.
  destruct (In_nth_error _ _ Hy) as (k & Hk).
  assert (exists b, nth_error l k = Some b /\ P b y) as (b & Hb & Hby).
  { clear -H Hk. revert k Hk. induction H; intros k Hk.
    - destruct k; discriminate.
    - destruct k; simpl in *; [injection Hk as <-; eauto | auto]. }
  eapply Hc; [eassumption..|]. apply F. eapply nth_error_In, Hb.
Qed.

Lemma StronglySorted_map {A B} (f : A -> B) (R : B -> B -> Prop) l :
  StronglySorted R (map f l) -> StronglySorted (fun a b => R (f a) (f b)) l.
Proof.
  induction l as [|x l IH]; simpl; intros H; [constructor|].
  inversion H as [|? ? HS F]; subst. constructor; [auto|].
  rewrite Forall_forall in *. intros y Hy. apply F. now apply in_map.
Qed.

Lemma take_length {A} (a : list A) p b : take a p = Ok b -> List.length b = List.length p.
Proof. rewrite take_Forall2. intros H. symmetry. eapply Forall2_length, H. Qed.

Section SortValues.

Context {A K : Type} (by_ : A -> K) (isna : K -> bool) (le : K -> K -> bool).
Variable argsort : Argsort.
Hypothesis Hadm : admissible argsort.
Hypothesis le_total :
  forall x y, isna x = false -> isna y = false -> le x y = true \/ le y x = true.
Hypothesis le_trans :
  forall x y z, le x y = true -> le y z = true -> le x z = true.

Lemma sort_values_spec (asc : bool) (df : list A) :
  exists indexer valid,
    nargsort argsort isna le asc (map by_ df) = Ok indexer /\
    Permutation indexer (seq 0 (List.length df)) /\
    take df indexer = Ok (valid ++ filter (fun r => isna (by_ r)) df) /\
    Permutation valid (filter (fun r => negb (isna (by_ r))) df) /\
    StronglySorted (fun a b => in_direction le asc (by_ a) (by_ b) = true) valid /\
    (stable argsort ->
     (forall x y, le x y = true -> isna x = false /\ isna y = false) ->
     StronglySorted (ties_in_place by_ isna le df) indexer).
Proof.
  unfold nargsort.
  set (items := map by_ df).
  set (mask := map isna items).
  assert (Hlen : List.length items = List.length df) by apply length_map.
  rewrite Hlen.
  set (idx := seq 0 (List.length df)).
  set (V := select (map negb mask) df).
  set (M := select mask df).
  assert (HV : V = filter (fun r => negb (isna (by_ r))) df).
  { unfold V, mask, items. rewrite !map_map. apply select_map. }
  assert (HM : M = filter (fun r => isna (by_ r)) df).
  { unfold M, mask, items. rewrite !map_map. apply select_map. }
  assert (Hnn : select (map negb mask) items = map by_ V) by apply select_of_map.
  rewrite Hnn.
  set (nni := select (map negb mask) idx).
  set (nai := select mask idx).
  assert (TV : take df nni = Ok V) by apply take_select.
  assert (TM : take df nai = Ok M) by apply take_select.
  set (V' := if asc then V else rev V).
  set (nni' := if asc then nni else rev nni).
  assert (Hnn' : (if asc then map by_ V else rev (map by_ V)) = map by_ V').
  { unfold V'. destruct asc; [reflexivity | symmetry; apply map_rev]. }
  rewrite Hnn'.
  assert (TV' : take df nni' = Ok V').
  { unfold nni', V'. destruct asc; [assumption | now apply take_rev]. }
  assert (InV' : forall r, In r V' -> In r V).
  { unfold V'. destruct asc; intros r Hr; [assumption | now apply in_rev]. }
  assert (NV : forall r, In r V -> isna (by_ r) = false).
  { intros r Hr. rewrite HV in Hr. apply filter_In in Hr.
    destruct Hr as [_ Hr]. now apply negb_true_iff in Hr. }
  assert (Hpre : preorder_on le (map by_ V')).
  { split.
    - intros x y Hx Hy. apply in_map_iff in Hx, Hy.
      destruct Hx as (a & <- & Ha), Hy as (b & <- & Hb). apply le_total; auto.
    - intros x y z _ _ _. apply le_trans. }
  destruct (Hadm K le (map by_ V') Hpre) as [Pord Hsorted].
  set (order := argsort K le (map by_ V')) in *.
  rewrite length_map in Pord.
  assert (Hl : List.length nni' = List.length V').
  { symmetry. eapply take_length, TV'. }
  destruct (take_perm V' order Pord) as (R & TR & PR).
  rewrite <- Hl in Pord.
  destruct (take_perm nni' order Pord) as (ix & Tix & Pix).
  rewrite Tix. cbn [bind].
  assert (Tdf : take df ix = Ok R).
  { rewrite (take_compose df nni' V' order ix TV' Tix). exact TR. }
  assert (HS : ascending le (map by_ R)).
  { apply Hsorted. now apply take_map. }
  set (ix' := if asc then ix else rev ix).
  set (valid := if asc then R else rev R).
  assert (Tvalid : take df ix' = Ok valid).
  { unfold ix', valid. destruct asc; [assumption | now apply take_rev]. }
  exists (ix' ++ nai), valid.
  split; [reflexivity|].
  split.
  { transitivity (nni ++ nai).
    - apply Permutation_app_tail. transitivity ix.
      + unfold ix'. destruct asc; [reflexivity | symmetry; apply Permutation_rev].
      + rewrite Pix. unfold nni'.
        destruct asc; [reflexivity | symmetry; apply Permutation_rev].
    - apply select_partition. unfold mask, items, idx.
      now rewrite !length_map, length_seq. }
  split.
  { rewrite <- HM. now apply take_app. }
  split.
  { rewrite <- HV. transitivity R.
    - unfold valid. destruct asc; [reflexivity | symmetry; apply Permutation_rev].
    - rewrite PR. unfold V'.
      destruct asc; [reflexivity | symmetry; apply Permutation_rev]. }
  split.
  { apply StronglySorted_map in HS. unfold valid.
    destruct asc; simpl; [exact HS|].
    apply (StronglySorted_rev _ _ HS). }
  intros Hst Hna.
  pose proof (Hst K le (map by_ V') Hpre) as Sord. fold order in Sord.
  assert (Inc : StronglySorted lt nni) by apply select_seq_sorted.
  assert (Inc' : StronglySorted lt nai) by apply select_seq_sorted.
  apply StronglySorted_app.
  - (* the valid part *)
    assert (Six : StronglySorted
                    (fun i j => if asc then ties_in_place by_ isna le df i j
                                else ties_in_place by_ isna le df j i) ix).
    { apply take_Forall2 in Tix.
      eapply (StronglySorted_Forall2 (item_at nni')); [|exact Tix|exact Sord].
      intros a b i j Hai Hbj Hab. unfold item_at in Hai, Hbj.
      apply take_Forall2 in TV'.
      destruct (Forall2_nth _ _ _ _ _ TV' Hai) as (ra & Hra & Hia).
      destruct (Forall2_nth _ _ _ _ _ TV' Hbj) as (rb & Hrb & Hjb).
      unfold item_at in Hia, Hjb.
      assert (Ka : nth_error (map by_ V') a = Some (by_ ra))
        by (rewrite nth_error_map, Hra; reflexivity).
      assert (Kb : nth_error (map by_ V') b = Some (by_ rb))
        by (rewrite nth_error_map, Hrb; reflexivity).
      assert (Nra : isna (by_ ra) = false)
        by (apply NV, InV'; eapply nth_error_In, Hra).
      assert (Nrb : isna (by_ rb) = false)
        by (apply NV, InV'; eapply nth_error_In, Hrb).
      unfold nni' in Hai, Hbj. destruct asc.
      - intros x y Hx Hy Ht. rewrite Hia in Hx. rewrite Hjb in Hy.
        injection Hx as <-. injection Hy as <-.
        destruct Ht as [[Ht _]|[_ Ht]]; [congruence|].
        pose proof (Hab _ _ Ka Kb Ht) as Lt.
        eapply (StronglySorted_nth lt nni a b); eassumption.
      - intros x y Hx Hy Ht. rewrite Hjb in Hx. rewrite Hia in Hy.
        injection Hx as <-. injection Hy as <-.
        destruct Ht as [[Ht _]|[Ht _]]; [congruence|].
        pose proof (Hab _ _ Ka Kb Ht) as Lt.
        pose proof (StronglySorted_rev _ _ Inc) as Dec.
        exact (StronglySorted_nth _ (rev nni) a b _ _ Dec Lt Hai Hbj). }
    unfold ix'. destruct asc; [exact Six|].
    apply (StronglySorted_rev _ _ Six).
  - (* the missing part *)
    eapply StronglySorted_impl; [|exact Inc'].
    intros i j _ _ Hij a b _ _ _. exact Hij.
  - (* a valid position before a missing one never ties *)
    intros i j Hi Hj a b Ha Hb Ht.
    assert (isna (by_ a) = false) as Na.
    { apply take_Forall2 in Tvalid.
      destruct (In_nth_error _ _ Hi) as (k & Hk).
      destruct (Forall2_nth _ _ _ _ _ Tvalid Hk) as (r & Hr & Hir).
      unfold item_at in Hir. rewrite Ha in Hir. injection Hir as <-.
      apply NV. apply nth_error_In in Hr.
      apply InV'. eapply Permutation_in; [|exact Hr].
      transitivity R; [|exact PR]. unfold valid.
      destruct asc; [reflexivity | symmetry; apply Permutation_rev]. }
    assert (isna (by_ b) = true) as Nb.
    { apply take_Forall2 in TM.
      destruct (In_nth_error _ _ Hj) as (k & Hk).
      destruct (Forall2_nth _ _ _ _ _ TM Hk) as (r & Hr & Hjr).
      unfold item_at in Hjr. rewrite Hb in Hjr. injection Hjr as <-.
      apply nth_error_In in Hr. rewrite HM in Hr.
      now apply filter_In in Hr. }
    destruct Ht as [[Ht _]|[Ht _]]; [congruence|].
    apply Hna in Ht. destruct Ht; congruence.
Qed.

End SortValues.

Section InsertionSort.

Context {A : Type} (le : A -> A -> bool) (D : A -> Prop) (S : A -> A -> Prop).
Hypothesis le_total : forall x y, D x -> D y -> le x y = true \/ le y x = true.
Hypothesis le_trans :
  forall x y z, D x -> D y -> D z -> le x y = true -> le y z = true -> le x z = true.

Local Abbreviation R := (stably_before le S).

Lemma insert_perm x l : Permutation (Py.insert le x l) (x :: l).
Proof.
  induction l as [|y l IH]; simpl; [reflexivity|].
  destruct (le x y); [reflexivity|].
  rewrite IH. apply perm_swap.
Qed.

Lemma sorted_perm l : Permutation (Py.sorted le l) l.
Proof.
  induction l as [|x l IH]; simpl; [constructor|].
  unfold Py.sorted in *. simpl. rewrite insert_perm. now constructor.
Qed.

Lemma insert_sorted x l :
  D x -> Forall D l -> Forall (S x) l ->
  StronglySorted R l -> StronglySorted R (Py.insert le x l).
Proof.
  intros Dx Dl Sx H. induction H as [|y l H IH F]; simpl.
  - repeat constructor.
  - inversion Dl as [|? ? Dy Dl']; subst. inversion Sx as [|? ? Sxy Sx']; subst.
    destruct (le x y) eqn:E.
    + constructor; [now constructor|].
      constructor; [split; auto|].
      rewrite Forall_forall in *. intros z Hz. split; [|auto].
      apply (le_trans x y z); auto. now apply F.
    + constructor; [auto|].
      apply Forall_forall. intros z Hz.
      apply (Permutation_in _ (insert_perm x l)) in Hz. destruct Hz as [<-|Hz].
      * split; [|congruence]. destruct (le_total x y); auto; congruence.
      * rewrite Forall_forall in F. now apply F.
Qed.

Lemma sorted_sorted l :
  Forall D l -> StronglySorted S l -> StronglySorted R (Py.sorted le l).
Proof.
  intros Dl H. induction H as [|x l H IH F]; simpl; [constructor|].
  inversion Dl; subst. apply insert_sorted; auto.
  - eapply Permutation_Forall; [symmetry; apply sorted_perm | assumption].
  - rewrite Forall_forall in *. intros y Hy. apply F.
    eapply Permutation_in; [apply sorted_perm | exact Hy].
Qed.

End InsertionSort.

Section Kernels.

Context {K : Type} (le : K -> K -> bool).

Local Abbreviation cmp := (by_key le).

Lemma combine_seq_at (pre ks : list K) :
  Forall (fun p => nth_error (pre ++ ks) (fst p) = Some (snd p))
         (combine (seq (List.length pre) (List.length ks)) ks).
Proof.
  revert pre. induction ks as [|x ks IH]; intros pre; simpl; constructor.
  - simpl. rewrite nth_error_app2 by lia. now rewrite Nat.sub_diag.
  - specialize (IH (pre ++ [x])). rewrite <- app_assoc in IH. simpl in IH.
    rewrite length_app in IH. simpl in IH. now rewrite Nat.add_1_r in IH.
Qed.

Lemma combine_seq_fst (ks : list K) s :
  map fst (combine (seq s (List.length ks)) ks) = seq s (List.length ks).
Proof.
  revert s. induction ks as [|x ks IH]; intros s; simpl; [reflexivity|].
  now rewrite IH.
Qed.

Lemma combine_seq_increasing (ks : list K) s :
  StronglySorted (fun a b : nat * K => (fst a < fst b)%nat)
                 (combine (seq s (List.length ks)) ks).
Proof.
  revert s. induction ks as [|x ks IH]; intros s; simpl; constructor; [apply IH|].
  apply Forall_forall. intros [i y] Hi. apply in_combine_l, in_seq in Hi. simpl. lia.
Qed.

Lemma pairs_at (ks : list K) (ps : list (nat * K)) :
  Forall (fun p => nth_error ks (fst p) = Some (snd p)) ps ->
  Forall2 (item_at ks) (map fst ps) (map snd ps).
Proof.
  induction 1; simpl; constructor; auto.
Qed.

Lemma StronglySorted_map_intro {A B} (f : A -> B) (R : B -> B -> Prop) l :
  StronglySorted (fun a b => R (f a) (f b)) l -> StronglySorted R (map f l).
Proof.
  induction 1 as [|x l H IH F]; simpl; constructor; [assumption|].
  rewrite Forall_forall in *. intros y Hy. apply in_map_iff in Hy.
  destruct Hy as (a & <- & Ha). auto.
Qed.

(** Sorting the (position, key) pairs by key with the insertion sort,
    from any arrangement of the pairs, is a correct sorting routine. *)
Lemma sorted_pairs_admissible (ks : list K) (ps : list (nat * K)) :
  preorder_on le ks ->
  Permutation ps (combine (seq 0 (List.length ks)) ks) ->
  Permutation (map fst (Py.sorted cmp ps)) (seq 0 (List.length ks)) /\
  forall taken, take ks (map fst (Py.sorted cmp ps)) = Ok taken -> ascending le taken.
Proof.
  intros [Htot Htr] HP.
  assert (Psorted : Permutation (Py.sorted cmp ps) (combine (seq 0 (List.length ks)) ks)).
  { rewrite sorted_perm. exact HP. }
  assert (Hat : Forall (fun p => nth_error ks (fst p) = Some (snd p)) (Py.sorted cmp ps)).
  { eapply Permutation_Forall; [symmetry; exact Psorted|]. exact (combine_seq_at [] ks). }
  split.
  - rewrite <- (combine_seq_fst ks 0). now apply Permutation_map.
  - intros taken Ht. apply take_Forall2 in Ht.
    rewrite (at_functional _ _ _ _ Ht (pairs_at _ _ Hat)).
    apply StronglySorted_map_intro.
    assert (Dps : Forall (fun p => In (snd p) ks) ps).
    { eapply Permutation_Forall; [symmetry; exact HP|].
      eapply Forall_impl; [|exact (combine_seq_at [] ks)].
      intros p Hp. eapply nth_error_In, Hp. }
    assert (Tps : StronglySorted (fun _ _ : nat * K => True) ps).
    { clear. induction ps; constructor; [assumption|].
      apply Forall_forall. auto. }
    pose proof (sorted_sorted cmp (fun p => In (snd p) ks) (fun _ _ => True)
                  (fun x y Hx Hy => Htot _ _ Hx Hy)
                  (fun x y z Hx Hy Hz => Htr _ _ _ Hx Hy Hz) ps Dps Tps) as HS.
    eapply StronglySorted_impl; [|exact HS]. intros x y _ _ [H _]. exact H.
Qed.

End Kernels.

Lemma stable_argsort_admissible : admissible stable_argsort.
Proof.
  intros K le ks Hpre. unfold stable_argsort.
  now apply sorted_pairs_admissible.
Qed.

Lemma unstable_argsort_admissible : admissible unstable_argsort.
Proof.
  intros K le ks Hpre. unfold unstable_argsort.
  apply sorted_pairs_admissible; [assumption|].
  symmetry. apply Permutation_rev.
Qed.

Lemma stable_argsort_stable : stable stable_argsort.
Proof.
  intros K le ks [Htot Htr]. unfold stable_argsort.
  set (cmp := by_key le).
  set (ps := combine (seq 0 (List.length ks)) ks).
  assert (Hat : Forall (fun p => nth_error ks (fst p) = Some (snd p)) ps)
    by exact (combine_seq_at [] ks).
  assert (Dps : Forall (fun p => In (snd p) ks) ps).
  { eapply Forall_impl; [|exact Hat]. intros p Hp. eapply nth_error_In, Hp. }
  pose proof (sorted_sorted cmp (fun p => In (snd p) ks)
                (fun a b => (fst a < fst b)%nat)
                (fun x y Hx Hy => Htot _ _ Hx Hy)
                (fun x y z Hx Hy Hz => Htr _ _ _ Hx Hy Hz) ps Dps
                (combine_seq_increasing ks 0)) as HS.
  assert (Hat' : Forall (fun p => nth_error ks (fst p) = Some (snd p)) (Py.sorted cmp ps)).
  { eapply Permutation_Forall; [symmetry; apply sorted_perm | exact Hat]. }
  apply StronglySorted_map_intro.
  eapply StronglySorted_impl; [|exact HS].
  intros a b Ha Hb [_ Hab] x y Hx Hy Hyx.
  rewrite Forall_forall in Hat'.
  rewrite (Hat' _ Ha) in Hx. rewrite (Hat' _ Hb) in Hy.
  injection Hx as <-. injection Hy as <-. now apply Hab.
Qed.

(* ================================================================= *)
(** ** The query layer *)

Lemma filter_all {A} (l : list A) : filter (fun _ => true) l = l.
Proof. induction l; simpl; congruence. Qed.

Lemma filter_twice {A} (p q : A -> bool) l :
  filter q (filter p l) = filter (fun x => p x && q x) l.
Proof.
  induction l as [|x l IH]; simpl; [reflexivity|].
  destruct (p x); simpl; [destruct (q x)|]; now rewrite IH.
Qed.

Lemma StronglySorted_of_Forall {A} (P : A -> Prop) (R : A -> A -> Prop) l :
  Forall P l -> (forall a b, P b -> R a b) -> StronglySorted R l.
Proof.
  intros F H. induction F as [|x l Hx F IH]; constructor; [assumption|].
  eapply Forall_impl; [|exact F]. intros b Hb. now apply H.
Qed.

Lemma truthy_some s : Py.truthy (Some s) = negb (String.eqb s EmptyString).
Proof. destruct s; reflexivity. Qed.

(** The guarded restriction of [filter_table] on one column. *)
Lemma restrict_wanted sentinel arg (col : Row -> string) (q : Table) :
  (if Py.truthy arg && negb (Py.str_eq sentinel arg)
   then filter (fun r => Py.str_eq (col r) arg) q else q)
  = filter (fun r => wanted sentinel arg (col r)) q.
Proof.
  destruct arg as [s|]; [|symmetry; apply filter_all].
  rewrite truthy_some. unfold wanted, Py.str_eq.
  rewrite (String.eqb_sym sentinel s).
  destruct (String.eqb s EmptyString); simpl; [symmetry; apply filter_all|].
  destruct (String.eqb s sentinel); simpl; [symmetry; apply filter_all | reflexivity].
Qed.

Lemma filter_table_unfold argsort df year league team :
  filter_table argsort df year league team
  = sort_values argsort WinRate F64.isna F64.le false (selection df year league team).
Proof.
  unfold filter_table, selection.
  rewrite (restrict_wanted all_leagues league League).
  rewrite (restrict_wanted all_teams team Team).
  rewrite !filter_twice. f_equal. apply filter_ext. intros r. apply andb_assoc.
Qed.

Lemma Zleb_total x y : Z.leb x y = true \/ Z.leb y x = true.
Proof. rewrite !Z.leb_le. lia. Qed.

Lemma Zleb_trans x y z : Z.leb x y = true -> Z.leb y z = true -> Z.leb x z = true.
Proof. rewrite !Z.leb_le. lia. Qed.

Section QueryFacts.

Variable argsort : Argsort.
Hypothesis Hadm : admissible argsort.

Lemma sort_by_rate_spec (q : Table) :
  exists out,
    sort_values argsort WinRate F64.isna F64.le false q = Ok out /\
    Permutation out q /\
    sorted_by_rate_desc out /\
    (stable argsort -> keeps_tie_order q out).
Proof.
  destruct (sort_values_spec WinRate F64.isna F64.le argsort Hadm
              f64_le_total f64_le_trans false q)
    as (indexer & valid & Hn & Pidx & Ht & Pv & Sv & Hstable).
  exists (valid ++ filter (fun r => F64.isna (WinRate r)) q).
  split; [unfold sort_values; rewrite Hn; exact Ht|].
  split.
  { destruct (take_perm q indexer Pidx) as (b & Hb & Pb). congruence. }
  split.
  { apply StronglySorted_app.
    - eapply StronglySorted_impl; [|exact Sv].
      intros a b Ha _ Hab. right. split; [|exact Hab].
      apply (Permutation_in _ Pv), filter_In in Ha.
      destruct Ha as [_ Ha]. now apply negb_true_iff in Ha.
    - apply StronglySorted_of_Forall with (P := fun r => F64.isna (WinRate r) = true).
      + apply Forall_forall. intros r Hr. now apply filter_In in Hr.
      + intros a b Hb. now left.
    - intros a b _ Hb. left. now apply filter_In in Hb. }
  intros Hst. exists indexer. split; [exact Ht|]. split; [exact Pidx|].
  apply Hstable; [exact Hst | exact f64_le_not_na].
Qed.

Lemma filter_table_spec df year league team :
  exists out,
    filter_table argsort df year league team = Ok out /\
    Permutation out (selection df year league team) /\
    sorted_by_rate_desc out /\
    (stable argsort -> keeps_tie_order (selection df year league team) out).
Proof.
  rewrite filter_table_unfold. apply sort_by_rate_spec.
Qed.

Lemma team_trend_spec df team :
  exists out,
    team_trend argsort df team = Ok out /\
    Permutation out (filter (fun r => String.eqb (Team r) team) df) /\
    sorted_by_year out.
Proof.
  unfold team_trend.
  set (t := filter (fun r => String.eqb (Team r) team) df).
  destruct (sort_values_spec Year (fun _ => false) Z.leb argsort Hadm
              (fun x y _ _ => Zleb_total x y) Zleb_trans true t)
    as (indexer & valid & Hn & Pidx & Ht & Pv & Sv & _).
  exists (valid ++ filter (fun _ => false) t).
  split; [unfold sort_values; rewrite Hn; exact Ht|].
  split.
  { destruct (take_perm t indexer Pidx) as (b & Hb & Pb). congruence. }
  assert (filter (fun _ : Row => false) t = []) as ->.
  { clear. induction t; simpl; auto. }
  rewrite app_nil_r. unfold sorted_by_year.
  eapply StronglySorted_impl; [|exact Sv].
  intros a b _ _ Hab. simpl in Hab. now apply Z.leb_le.
Qed.

End QueryFacts.

Lemma filter_keeps_all {A} (p : A -> bool) l :
  Forall (fun x => p x = true) l -> filter p l = l.
Proof.
  induction 1 as [|x l Hx F IH]; simpl; [reflexivity|]. now rewrite Hx, IH.
Qed.

Lemma selection_all df year :
  selection df year (Some all_leagues) (Some all_teams)
  = filter (fun r => Z.eqb (Year r) year) df.
Proof.
  unfold selection. apply filter_ext. intros r. unfold wanted.
  rewrite !String.eqb_refl, !orb_true_r. now rewrite !andb_true_r.
Qed.

Lemma unique_In {A} (eqb : A -> A -> bool) l x :
  (forall a b, eqb a b = true <-> a = b) ->
  In x (Py.unique eqb l) <-> In x l.
Proof.
  intros Heq. induction l as [|y l IH]; simpl; [tauto|].
  rewrite filter_In, IH. split.
  - intros [H|[H _]]; auto.
  - intros [H|H]; auto.
    destruct (eqb y x) eqn:E; [left; now apply Heq|].
    right. split; [assumption | reflexivity].
Qed.

Lemma sorted_unique_In l x :
  In x (Py.sorted String.leb (Py.unique String.eqb l)) <-> In x l.
Proof.
  rewrite <- (unique_In String.eqb l x String.eqb_eq).
  split; apply Permutation_in; [|symmetry]; apply sorted_perm.
Qed.

Section QueryClaims.

Variable argsort : Argsort.
Hypothesis Hadm : admissible argsort.

(** C1 (amended).  For every table, year and optional league and team,
    [filter_table] returns (it does not raise) exactly the rows of the
    year, restricted to the league when one is given that is neither
    empty nor the all-leagues sentinel, and to the team likewise, in
    an order where no row precedes a row with a higher [WinRate] and
    rows without a rate come last; the result is empty when no row
    matches; and rows with equal rates keep their original order
    whenever the sorting routine is a stable one. *)
Theorem filter_table_selects_and_sorts df year league team :
  exists out,
    filter_table argsort df year league team = Ok out /\
    Permutation out (selection df year league team) /\
    sorted_by_rate_desc out /\
    (selection df year league team = [] -> out = []) /\
    (stable argsort -> keeps_tie_order (selection df year league team) out).
Proof.
  destruct (filter_table_spec argsort Hadm df year league team)
    as (out & Ho & Po & So & Ko).
  exists out. repeat split; auto.
  intros E. rewrite E in Po. now apply Permutation_nil.
Qed.

(** C6.  With both sentinels [filter_table] returns exactly the rows of
    the year, sorted by [WinRate] descending, and filtering that result
    again by the same year and the sentinels yields the same rows. *)
Theorem filter_table_all_idempotent df year :
  exists out,
    filter_table argsort df year (Some all_leagues) (Some all_teams) = Ok out /\
    Permutation out (filter (fun r => Z.eqb (Year r) year) df) /\
    sorted_by_rate_desc out /\
    exists again,
      filter_table argsort out year (Some all_leagues) (Some all_teams) = Ok again /\
      Permutation again out /\
      sorted_by_rate_desc again.
Proof.
  destruct (filter_table_spec argsort Hadm df year (Some all_leagues) (Some all_teams))
    as (out & Ho & Po & So & _).
  rewrite selection_all in Po.
  exists out. repeat split; auto.
  destruct (filter_table_spec argsort Hadm out year (Some all_leagues) (Some all_teams))
    as (again & Ha & Pa & Sa & _).
  exists again. repeat split; auto.
  rewrite selection_all, filter_keeps_all in Pa; [exact Pa|].
  apply Forall_forall. intros r Hr.
  apply (Permutation_in _ Po), filter_In in Hr. tauto.
Qed.

(** C7.  [team_trend] returns (it does not raise) exactly the rows of
    the team, in non-decreasing order of [Year]; for a team that is in
    no row the result is the empty table. *)
Theorem team_trend_rows_by_year df team :
  exists out,
    team_trend argsort df team = Ok out /\
    Permutation out (filter (fun r => String.eqb (Team r) team) df) /\
    sorted_by_year out /\
    ((forall r, In r df -> Team r <> team) -> out = []).
Proof.
  destruct (team_trend_spec argsort Hadm df team) as (out & Ho & Po & So).
  exists out. repeat split; auto.
  intros Habs. apply Permutation_nil. rewrite Po.
  assert (filter (fun r => String.eqb (Team r) team) df = []) as ->; [|reflexivity].
  clear -Habs. induction df as [|r df IH]; simpl; [reflexivity|].
  destruct (String.eqb (Team r) team) eqn:E.
  - apply String.eqb_eq in E. exfalso. apply (Habs r); simpl; auto.
  - apply IH. intros; apply Habs; simpl; auto.
Qed.

End QueryClaims.

(** C5.  The teams of a year and league are among the teams of the
    year, which are among the teams of the whole table. *)
Theorem teams_narrowing (df : Table) (year : Z) (league : option string) :
  incl (teams df (Some year) league) (teams df (Some year) None) /\
  incl (teams df (Some year) None) (teams df None None).
Proof.
  unfold teams, incl. split; intros t; rewrite !sorted_unique_In, !in_map_iff;
    intros (r & Hr & Hin); exists r; (split; [assumption|]).
  - simpl. destruct (Py.truthy league); [|assumption].
    now apply filter_In in Hin.
  - simpl in Hin. now apply filter_In in Hin.
Qed.

(** C10.  An empty-string league restricts nothing: [teams] with
    [league = ""] is [teams] without a league.  The empty string is not
    compared with the [League] column, so the team of every row of the
    year is listed, whatever league the row has. *)
Theorem teams_empty_league (df : Table) (year : option Z) :
  teams df year (Some EmptyString) = teams df year None /\
  forall r, In r df -> (year = None \/ year = Some (Year r)) ->
            In (Team r) (teams df year (Some EmptyString)).
Proof.
  split; [reflexivity|].
  intros r Hr Hy. unfold teams. cbn [Py.truthy].
  rewrite sorted_unique_In. apply in_map.
  destruct Hy as [->| ->]; [assumption|].
  apply filter_In. split; [assumption | apply Z.eqb_refl].
Qed.

Lemma filter_table_selects_and_sorts_witness :
  admissible stable_argsort /\
  stable stable_argsort /\
  exists out,
    filter_table stable_argsort Sample.season 2023
                 (Some Sample.central) (Some all_teams) = Ok out /\
    Permutation out (selection Sample.season 2023 (Some Sample.central) (Some all_teams)) /\
    sorted_by_rate_desc out /\
    keeps_tie_order (selection Sample.season 2023 (Some Sample.central) (Some all_teams))
                    out.
Proof.
  split; [exact stable_argsort_admissible|].
  split; [exact stable_argsort_stable|].
  destruct (filter_table_selects_and_sorts stable_argsort stable_argsort_admissible
              Sample.season 2023 (Some Sample.central) (Some all_teams))
    as (out & H1 & H2 & H3 & _ & H5).
  exists out. repeat split; auto.
  apply H5, stable_argsort_stable.
Defined.

Lemma filter_table_all_idempotent_witness :
  admissible stable_argsort /\
  exists out,
    filter_table stable_argsort Sample.season 2023 (Some all_leagues) (Some all_teams)
    = Ok out /\
    Permutation out (filter (fun r => Z.eqb (Year r) 2023) Sample.season) /\
    sorted_by_rate_desc out /\
    exists again,
      filter_table stable_argsort out 2023 (Some all_leagues) (Some all_teams) = Ok again /\
      Permutation again out /\
      sorted_by_rate_desc again.
Proof.
  split; [exact stable_argsort_admissible|].
  exact (filter_table_all_idempotent stable_argsort stable_argsort_admissible
           Sample.season 2023).
Defined.

Lemma team_trend_rows_by_year_witness :
  admissible stable_argsort /\
  exists out,
    team_trend stable_argsort Sample.season "TeamC" = Ok out /\
    Permutation out (filter (fun r => String.eqb (Team r) "TeamC") Sample.season) /\
    sorted_by_year out /\
    ((forall r, In r Sample.season -> Team r <> "TeamC"%string) -> out = []).
Proof.
  split; [exact stable_argsort_admissible|].
  exact (team_trend_rows_by_year stable_argsort stable_argsort_admissible
           Sample.season "TeamC").
Defined.

(** C1 as stated fails.  With [league = ""], a league that is given
    and is not the sentinel, the rows of every league of the year are
    returned, although no row of the table has the league [""]. *)
Lemma filter_table_literal_reading_fails :
  exists out,
    filter_table stable_argsort Sample.season 2023 (Some EmptyString) None = Ok out /\
    map Team out = ["TeamA"; "TeamC"; "TeamB"] /\
    selection_literally Sample.season 2023 (Some EmptyString) None = [] /\
    ~ Permutation out (selection_literally Sample.season 2023 (Some EmptyString) None).
Proof.
  eexists. split; [vm_compute; reflexivity|].
  split; [reflexivity|]. split; [reflexivity|].
  intros P. apply Permutation_length in P. vm_compute in P. discriminate.
Qed.

(** The order of ties is the sorting routine's: with a routine that
    sorts correctly but is not stable, two teams with the same rate
    come out in the reverse of their original order. *)
Lemma unstable_routine_reverses_ties :
  admissible unstable_argsort /\
  exists out,
    filter_table unstable_argsort Sample.tied 2023 None None = Ok out /\
    out = [Sample.team_c; Sample.team_a] /\
    ~ keeps_tie_order (selection Sample.tied 2023 None None) out.
Proof.
  split; [exact unstable_argsort_admissible|].
  eexists. split; [vm_compute; reflexivity|]. split; [reflexivity|].
  intros (indexer & Ht & _ & HS).
  change (selection Sample.tied 2023 None None) with Sample.tied in *.
  apply take_Forall2 in Ht.
  inversion Ht as [|i c ix l1 Hi Ht1]; subst.
  inversion Ht1 as [|j a ix2 l2 Hj Ht2]; subst.
  inversion Ht2; subst.
  assert (i = 1%nat) as ->.
  { destruct i as [|[|i]]; auto; unfold item_at in Hi; simpl in Hi.
    - apply (f_equal (option_map Team)) in Hi. vm_compute in Hi. discriminate.
    - destruct i; discriminate. }
  assert (j = 0%nat) as ->.
  { destruct j as [|[|j]]; auto; unfold item_at in Hj; simpl in Hj.
    - apply (f_equal (option_map Team)) in Hj. vm_compute in Hj. discriminate.
    - destruct j; discriminate. }
  inversion HS as [|? ? _ F]; subst. inversion F as [|? ? H10 _]; subst.
  specialize (H10 Sample.team_c Sample.team_a eq_refl eq_refl).
  assert (1 < 0)%nat; [|lia].
  apply H10. right. split; vm_compute; reflexivity.
Qed.

(* ================================================================= *)
(** ** Results and columns *)

Lemma bind_Ok {A B} (r : result A) (k : A -> result B) b :
  bind r k = Ok b -> exists a, r = Ok a /\ k a = Ok b.
Proof. destruct r as [a|e]; simpl; [eauto | discriminate]. Qed.

Lemma position_nth c cols j :
  position c cols = Some j -> nth_error cols j = Some c.
Proof.
  revert j. induction cols as [|x cols IH]; intros j; simpl; [discriminate|].
  destruct (String.eqb_spec x c) as [->|_].
  - intros H. injection H as <-. reflexivity.
  - destruct (position c cols) as [k|]; simpl; [|discriminate].
    intros H. injection H as <-. now apply IH.
Qed.

Lemma position_contains c cols :
  Py.contains cols c = true <-> position c cols <> None.
Proof.
  unfold Py.contains. induction cols as [|x cols IH]; simpl; [split; congruence|].
  rewrite (String.eqb_sym c x).
  destruct (String.eqb x c); simpl; [split; congruence|].
  rewrite IH. destruct (position c cols); simpl; split; congruence.
Qed.

Lemma nth_replace {A} (r : list A) j k y d :
  (j < List.length r)%nat ->
  nth k (firstn j r ++ y :: skipn (S j) r) d = if Nat.eqb k j then y else nth k r d.
Proof.
  intros Hj.
  assert (Hl : List.length (firstn j r) = j) by (rewrite length_firstn; lia).
  destruct (Nat.eqb_spec k j) as [->|Hne].
  - rewrite app_nth2 by lia. now rewrite Hl, Nat.sub_diag.
  - destruct (Nat.lt_ge_cases k j) as [Hlt|Hge].
    + rewrite app_nth1 by lia.
      rewrite <- (firstn_skipn j r) at 2. now rewrite app_nth1 by lia.
    + rewrite app_nth2 by lia. rewrite Hl.
      destruct (k - j)%nat as [|m] eqn:E; [lia|]. simpl.
      rewrite <- (firstn_skipn (S j) r) at 2.
      rewrite app_nth2 by (rewrite length_firstn; lia).
      rewrite length_firstn. f_equal. lia.
Qed.

Section AssignColumn.

Variables (c : string) (f : cell -> result cell) (df df' : DataFrame).
Hypothesis Hassign : assign_column c f df = Ok df'.

Lemma assign_column_position : exists j, position c (columns df) = Some j.
Proof.
  unfold assign_column in Hassign.
  destruct (position c (columns df)); [eauto | discriminate].
Qed.

Lemma assign_column_columns : columns df' = columns df.
Proof.
  unfold assign_column in Hassign.
  destruct (position c (columns df)); [|discriminate].
  apply bind_Ok in Hassign. destruct Hassign as (rs & _ & H).
  injection H as <-. reflexivity.
Qed.

Lemma assign_column_rows j :
  position c (columns df) = Some j ->
  Forall2 (fun r r' => exists x y,
             nth_error r j = Some x /\ f x = Ok y /\
             r' = firstn j r ++ y :: skipn (S j) r)
          (rows df) (rows df').
Proof.
  intros Hj. unfold assign_column in Hassign. rewrite Hj in Hassign.
  apply bind_Ok in Hassign. destruct Hassign as (rs & Hrs & H).
  injection H as <-. simpl. apply mapM_Forall2 in Hrs.
  eapply Forall2_impl; [|exact Hrs]. intros r r' Hr. simpl in Hr.
  destruct (nth_error r j) as [x|] eqn:Ex; [|discriminate].
  apply bind_Ok in Hr. destruct Hr as (y & Hy & H). injection H as <-. eauto.
Qed.

(** The assigned column holds the images of its former values. *)
Lemma assign_column_same :
  Forall2 (fun x y => f x = Ok y) (column c df) (column c df').
Proof.
  destruct assign_column_position as (j & Hj).
  unfold column. rewrite assign_column_columns, Hj.
  pose proof (assign_column_rows j Hj) as H.
  induction H as [|r r' rs rs' (x & y & Hx & Hy & ->) H IH]; cbn [map]; constructor; auto.
  assert (j < List.length r)%nat by (apply nth_error_Some; congruence).
  rewrite nth_replace by assumption. rewrite Nat.eqb_refl.
  now rewrite (nth_error_nth _ _ _ Hx).
Qed.

(** Every other column is as it was. *)
Lemma assign_column_other c' : c' <> c -> column c' df' = column c' df.
Proof.
  intros Hne. destruct assign_column_position as (j & Hj).
  unfold column. rewrite assign_column_columns.
  destruct (position c' (columns df)) as [k|] eqn:Hk; [|reflexivity].
  assert (k <> j) as Hkj.
  { intros ->. apply position_nth in Hj, Hk. congruence. }
  pose proof (assign_column_rows j Hj) as H.
  induction H as [|r r' rs rs' (x & y & Hx & Hy & ->) H IH]; cbn [map]; [reflexivity|].
  f_equal; [|assumption].
  assert (j < List.length r)%nat by (apply nth_error_Some; congruence).
  rewrite nth_replace by assumption.
  now destruct (Nat.eqb_spec k j).
Qed.

End AssignColumn.





(* ================================================================= *)
(** ** Clamping *)



(* ================================================================= *)
(** ** The source loader and the upload importer *)

(** *** The data directory *)

(** [ensure_dirs] changes no file, nor the clock. *)
Lemma ensure_dirs_files w :
  src_file (fst (ensure_dirs w)) = src_file w /\
  db_file (fst (ensure_dirs w)) = db_file w /\
  clock (fst (ensure_dirs w)) = clock w /\
  writable (fst (ensure_dirs w)) = writable w.
Proof.
  unfold ensure_dirs, src_file, db_file.
  destruct (data_dir w) as [d|] eqn:Ed; cbn [fst]; [now rewrite Ed|].
  destruct (writable w) eqn:Ew; cbn [fst data_dir clock writable src db];
    rewrite ?Ed; auto.
Qed.

(** It raises only for want of a directory that cannot be made, and
    then changes nothing. *)
Lemma ensure_dirs_cases w :
  (snd (ensure_dirs w) = Ok tt /\ (data_dir w <> None \/ writable w = true)) \/
  (ensure_dirs w = (w, Raise OSError) /\ data_dir w = None /\ writable w = false).
Proof.
  unfold ensure_dirs. destruct (data_dir w) as [d|].
  - left. split; [reflexivity | left; discriminate].
  - destruct (writable w).
    + left. split; [reflexivity | now right].
    + right. auto.
Qed.

Lemma ensure_dirs_src w c : src_file w = Some c -> ensure_dirs w = (w, Ok tt).
Proof.
  unfold ensure_dirs, src_file. destruct (data_dir w); [reflexivity | discriminate].
Qed.

Lemma ensure_dirs_db w c : db_file w = Some c -> ensure_dirs w = (w, Ok tt).
Proof.
  unfold ensure_dirs, db_file. destruct (data_dir w); [reflexivity | discriminate].
Qed.

Lemma read_path_Ok E file df : read_path E file = Ok df -> exists c, file = Some c.
Proof. destruct file as [c|]; [eauto | discriminate]. Qed.

(** [load_source] after the directory is seen to: the reads and casts
    on what is at [SRC_PATH]. *)
Lemma load_source_unfold E w :
  snd (load_source E w)
  = (_ <- snd (ensure_dirs w) ;;
     df <- _read_csv_strict E (src_file w) ;;
     df <- assign_column "Year" (astype_int E) df ;;
     df <- fold_left (fun acc c => df <- acc ;; assign_column c (astype_int E) df)
                     ["Games"; "Wins"; "Losses"; "Draws"] (Ok df) ;;
     assign_column "WinRate" (clip_rate E) df).
Proof.
  unfold load_source.
  destruct (ensure_dirs_files w) as (Hsrc & _).
  destruct (ensure_dirs w) as [w1 made]. cbn [fst snd] in *.
  destruct made as [[]|e]; cbn [bind]; [now rewrite Hsrc | reflexivity].
Qed.

(** With a file at [SRC_PATH] the directory is there. *)
Lemma load_source_present E w c :
  src_file w = Some c ->
  snd (load_source E w)
  = (df <- _read_csv_strict E (src_file w) ;;
     df <- assign_column "Year" (astype_int E) df ;;
     df <- fold_left (fun acc c => df <- acc ;; assign_column c (astype_int E) df)
                     ["Games"; "Wins"; "Losses"; "Draws"] (Ok df) ;;
     assign_column "WinRate" (clip_rate E) df).
Proof.
  intros Hc. rewrite load_source_unfold, (ensure_dirs_src w c Hc). reflexivity.
Qed.

Lemma load_source_Ok E w df :
  snd (load_source E w) = Ok df ->
  (df <- _read_csv_strict E (src_file w) ;;
   df <- assign_column "Year" (astype_int E) df ;;
   df <- fold_left (fun acc c => df <- acc ;; assign_column c (astype_int E) df)
                   ["Games"; "Wins"; "Losses"; "Draws"] (Ok df) ;;
   assign_column "WinRate" (clip_rate E) df) = Ok df.
Proof.
  rewrite load_source_unfold. intros H. apply bind_Ok in H.
  now destruct H as (_ & _ & H).
Qed.

Lemma read_csv_strict_Ok E path df :
  _read_csv_strict E path = Ok df ->
  read_path E path = Ok df /\ missing_columns df = [].
Proof.
  unfold _read_csv_strict. intros H. apply bind_Ok in H.
  destruct H as (raw & Hraw & H).
  destruct (missing_columns raw) eqn:Em; simpl in H; [|discriminate].
  injection H as <-. auto.
Qed.





(* ================================================================= *)
(** ** Text of the error messages *)

Lemma append_assoc (a b c : string) : ((a ++ b) ++ c = a ++ (b ++ c))%string.
Proof. induction a as [|x a IH]; simpl; [reflexivity | now rewrite IH]. Qed.

Lemma append_empty_r (a : string) : (a ++ "" = a)%string.
Proof. induction a as [|x a IH]; simpl; [reflexivity | now rewrite IH]. Qed.

Lemma occurs_in_refl s : occurs_in s s.
Proof. exists EmptyString, EmptyString. simpl. now rewrite append_empty_r. Qed.

Lemma occurs_in_trans s t u : occurs_in s t -> occurs_in t u -> occurs_in s u.
Proof.
  intros (a & b & ->) (c & d & ->).
  exists (c ++ a)%string, (b ++ d)%string. now rewrite !append_assoc.
Qed.

Lemma occurs_in_left s t post : occurs_in s t -> occurs_in s (t ++ post).
Proof.
  intros H. apply (occurs_in_trans _ _ _ H).
  exists EmptyString, post. reflexivity.
Qed.

Lemma occurs_in_right s t pre : occurs_in s t -> occurs_in s (pre ++ t).
Proof.
  intros H. apply (occurs_in_trans _ _ _ H).
  exists pre, EmptyString. now rewrite append_empty_r.
Qed.

Lemma occurs_in_concat sep l x : In x l -> occurs_in x (String.concat sep l).
Proof.
  induction l as [|y l IH]; intros Hx; [destruct Hx|].
  destruct l as [|z l].
  - destruct Hx as [->|[]]. apply occurs_in_refl.
  - change (String.concat sep (y :: z :: l))
      with (y ++ sep ++ String.concat sep (z :: l))%string.
    destruct Hx as [->|Hx].
    + apply occurs_in_left, occurs_in_refl.
    + now apply occurs_in_right, occurs_in_right, IH.
Qed.

(** A name of the list stands in the [repr] of the list. *)
Lemma occurs_in_repr_list l c : In c l -> occurs_in c (Py.repr_list l).
Proof.
  intros Hc. unfold Py.repr_list.
  apply occurs_in_right, occurs_in_left.
  apply occurs_in_trans with (Py.repr_str c).
  - exists "'", "'". reflexivity.
  - apply occurs_in_concat. now apply in_map.
Qed.



(* ================================================================= *)
(** ** The schema check *)


Lemma import_reports_missing E bytes_obj w df :
  read_csv E bytes_obj = Ok df -> missing_columns df <> [] ->
  exists msg, snd (import_uploaded_csv E bytes_obj w) = Raise (ValueError msg) /\
              (forall c, In c (missing_columns df) -> occurs_in c msg).
Proof.
  intros Hr Hm.
  exists ("アップロードCSVの列が不足: " ++ Py.repr_list (missing_columns df))%string.
  unfold import_uploaded_csv. cbn [snd].
  rewrite Hr. cbn [bind]. destruct (missing_columns df) eqn:Em; [congruence|].
  cbn [is_empty negb]. split; [reflexivity|]. rewrite <- Em.
  intros c Hc. now apply occurs_in_right, occurs_in_repr_list.
Qed.




Lemma contains_In cols c : Py.contains cols c = true <-> In c cols.
Proof.
  unfold Py.contains. rewrite existsb_exists. split.
  - intros (x & Hx & Heq). apply String.eqb_eq in Heq. now subst.
  - intros H. exists c. split; [assumption | apply String.eqb_refl].
Qed.

(** The missing columns are the required ones that are no column of
    the table. *)
Lemma missing_columns_In df c :
  In c (missing_columns df) <-> In c NEEDED_COLS /\ ~ In c (columns df).
Proof.
  unfold missing_columns. rewrite filter_In. split.
  - intros [Hc Hn]. split; [assumption|]. intros Hin.
    apply contains_In in Hin. now rewrite Hin in Hn.
  - intros [Hc Hn]. split; [assumption|].
    destruct (Py.contains (columns df) c) eqn:Ec; [|reflexivity].
    exfalso. now apply Hn, contains_In.
Qed.

Lemma missing_columns_nil df :
  missing_columns df = [] <-> incl NEEDED_COLS (columns df).
Proof.
  split.
  - intros Hm c Hc. destruct (Py.contains (columns df) c) eqn:Ec.
    + now apply contains_In.
    + assert (Hin : In c (missing_columns df)).
      { apply missing_columns_In. split; [assumption|]. intros Hin.
        apply contains_In in Hin. congruence. }
      rewrite Hm in Hin. destruct Hin.
  - intros Hall. destruct (missing_columns df) as [|c l] eqn:Em; [reflexivity|].
    assert (Hin : In c (missing_columns df)) by (rewrite Em; now left).
    apply missing_columns_In in Hin. destruct Hin as [Hc Hn].
    exfalso. now apply Hn, Hall.
Qed.







(* ================================================================= *)
(** ** Effects of the importer and the history reader *)

(** C8.  Importing writes nothing and leaves the source alone: the
    world after an import is the world before it, whether the import
    succeeds or fails, so a [load_source] after it returns what it
    returned before; and a buffer whose table lacks [Draws] is refused
    with a [ValueError] that names [Draws]. *)
Theorem import_leaves_world (E : Env) (bytes_obj : content) (w : World) :
  fst (import_uploaded_csv E bytes_obj w) = w /\
  load_source E (fst (import_uploaded_csv E bytes_obj w)) = load_source E w /\
  (forall df, read_csv E bytes_obj = Ok df ->
     Py.contains (columns df) "Draws" = false ->
     exists msg, snd (import_uploaded_csv E bytes_obj w) = Raise (ValueError msg) /\
                 occurs_in "Draws" msg).
Proof.
  split; [reflexivity|]. split; [reflexivity|].
  intros df Hr Hd.
  assert (Hin : In "Draws" (missing_columns df)).
  { unfold missing_columns. apply filter_In. split; [|now rewrite Hd].
    unfold NEEDED_COLS. simpl. tauto. }
  assert (Hm : missing_columns df <> []) by (intros E0; now rewrite E0 in Hin).
  destruct (import_reports_missing E bytes_obj w df Hr Hm) as (msg & Hmsg & Hocc).
  exists msg. split; [assumption | now apply Hocc].
Qed.

Lemma import_leaves_world_witness :
  fst (import_uploaded_csv Ref.env Sample.upload_without_draws Sample.fresh)
    = Sample.fresh /\
  load_source Ref.env
    (fst (import_uploaded_csv Ref.env Sample.upload_without_draws Sample.fresh))
    = load_source Ref.env Sample.fresh /\
  exists msg,
    snd (import_uploaded_csv Ref.env Sample.upload_without_draws Sample.fresh)
      = Raise (ValueError msg) /\
    occurs_in "Draws" msg.
Proof.
  destruct (import_leaves_world Ref.env Sample.upload_without_draws Sample.fresh)
    as (H1 & H2 & H3).
  split; [exact H1|]. split; [exact H2|].
  apply (H3 Sample.upload_frame); reflexivity.
Defined.

(** C9.  Without a history file [load_db] returns the empty table as
    its normal result, and changes nothing. *)
Theorem load_db_without_history (E : Env) (w : World) :
  db_file w = None -> load_db E w = (w, Ok empty_frame).
Proof. intros H. unfold load_db. now rewrite H. Qed.

Lemma load_db_without_history_witness :
  db_file Sample.fresh = None /\
  load_db Ref.env Sample.fresh = (Sample.fresh, Ok empty_frame).
Proof.
  split; [reflexivity|].
  apply (load_db_without_history Ref.env Sample.fresh). reflexivity.
Defined.

(* ================================================================= *)
(** ** Recording a snapshot and reading it back *)

Lemma tokenize_exact width l :
  Forall (fun r => List.length r = width) l -> tokenize width l = Ok l.
Proof.
  induction 1 as [|r l Hr F IH]; simpl; [reflexivity|].
  rewrite Hr, Nat.ltb_irrefl, IH. simpl.
  now rewrite Nat.sub_diag, app_nil_r.
Qed.

Lemma map_skipn_0 {A} (l : list (list A)) : map (skipn 0) l = l.
Proof. induction l as [|r l IH]; cbn [map]; [reflexivity | now rewrite IH]. Qed.

(** Text whose records all have as many fields as the header is read
    without completion, error or index. *)
Lemma read_csv_regular E header body :
  Forall (fun r => List.length r = List.length header) body ->
  read_csv E (Text (header :: body))
  = Ok (mkFrame (labels E header) (infer_grid E (List.length header) body)).
Proof.
  intros F. unfold read_csv.
  assert ((match body with
           | [] => List.length header
           | first :: _ => Nat.max (List.length header) (List.length first)
           end) = List.length header) as ->.
  { destruct F as [|r l Hr _]; [reflexivity|]. rewrite Hr. apply Nat.max_id. }
  rewrite (tokenize_exact _ _ F). cbn [bind].
  now rewrite Nat.sub_diag, map_skipn_0.
Qed.

Lemma last_n_app {A} (a b : list A) : last_n (List.length b) (a ++ b) = b.
Proof.
  unfold last_n. rewrite length_app, Nat.add_sub.
  rewrite skipn_app, Nat.sub_diag, skipn_all. reflexivity.
Qed.

(** The frame a snapshot writes, when the view has neither of the two
    added labels. *)
Lemma snapshot_columns_inserted stamp meta view :
  Py.contains (columns view) "_saved_at" = false ->
  Py.contains (columns view) "_meta" = false ->
  (out <- insert_column 0 "_saved_at" (CStr stamp) view ;;
   insert_column 1 "_meta" (CStr meta) out)
  = Ok (snapshot_frame stamp meta view).
Proof.
  intros H1 H2. unfold insert_column. rewrite H1.
  cbn [bind columns rows firstn skipn app].
  assert (Py.contains ("_saved_at" :: columns view) "_meta" = false) as ->.
  { unfold Py.contains in *. simpl. exact H2. }
  unfold snapshot_frame. f_equal. rewrite map_map. reflexivity.
Qed.

Lemma snapshot_columns_refused stamp meta view :
  Py.contains (columns view) "_saved_at" = true \/
  Py.contains (columns view) "_meta" = true ->
  exists label,
    (label = "_saved_at" \/ label = "_meta") /\
    In label (columns view) /\
    (out <- insert_column 0 "_saved_at" (CStr stamp) view ;;
     insert_column 1 "_meta" (CStr meta) out)
    = Raise (ValueError ("cannot insert " ++ label ++ ", already exists")).
Proof.
  intros H. unfold insert_column.
  destruct (Py.contains (columns view) "_saved_at") eqn:E1.
  - exists "_saved_at". split; [now left|]. split; [now apply contains_In|].
    reflexivity.
  - destruct H as [H|H]; [discriminate|].
    exists "_meta". split; [now right|]. split; [now apply contains_In|].
    cbn [bind columns firstn skipn app].
    assert (Py.contains ("_saved_at" :: columns view) "_meta" = true) as ->.
    { unfold Py.contains in *. simpl. exact H. }
    reflexivity.
Qed.

(** *** The four ways a snapshot can go *)

(** Without the directory, on storage that takes no writes, it stops
    at [os.makedirs]. *)
Lemma snapshot_no_directory E view meta w :
  data_dir w = None -> writable w = false ->
  snapshot_to_db E view meta w = (w, Raise OSError).
Proof.
  intros Hd Hw. unfold snapshot_to_db, ensure_dirs. now rewrite Hd, Hw.
Qed.

(** Past the directory, a view that has one of the two labels is
    refused by [insert], before any file is touched. *)
Lemma snapshot_refused E view meta w :
  data_dir w <> None \/ writable w = true ->
  Py.contains (columns view) "_saved_at" = true \/
  Py.contains (columns view) "_meta" = true ->
  exists label,
    (label = "_saved_at" \/ label = "_meta") /\
    In label (columns view) /\
    snapshot_to_db E view meta w
    = (fst (ensure_dirs w),
       Raise (ValueError ("cannot insert " ++ label ++ ", already exists"))).
Proof.
  intros Hdir Hclash.
  destruct (ensure_dirs_files w) as (_ & _ & Hc & _).
  destruct (ensure_dirs_cases w) as [[Hok _]|[_ [Hd Hw]]].
  2:{ destruct Hdir; congruence. }
  destruct (snapshot_columns_refused (clock w) (str_dict E meta) view Hclash)
    as (label & Hlabel & Hin & Hraise).
  exists label. split; [assumption|]. split; [assumption|].
  unfold snapshot_to_db. destruct (ensure_dirs w) as [w1 made].
  cbn [fst snd] in *. subst made. now rewrite Hc, Hraise.
Qed.

(** A view that is not refused is written where the storage takes
    writes: after the records the file holds, or after its header into
    a new file. *)
Lemma snapshot_written E view meta w :
  writable w = true ->
  Py.contains (columns view) "_saved_at" = false ->
  Py.contains (columns view) "_meta" = false ->
  snapshot_to_db E view meta w =
  (mkWorld
     (Some (mkFolder (src_file w)
        (Some match db_file w with
              | Some old =>
                  append_text old
                    (map (map (fmt E))
                         (rows (snapshot_frame (clock w) (str_dict E meta) view)))
              | None =>
                  Text (columns (snapshot_frame (clock w) (str_dict E meta) view)
                        :: map (map (fmt E))
                             (rows (snapshot_frame (clock w) (str_dict E meta) view)))
              end)))
     (clock w) (writable w),
   Ok tt).
Proof.
  intros Hw H1 H2.
  destruct (ensure_dirs_files w) as (Hs & Hd & Hc & Hwr).
  destruct (ensure_dirs_cases w) as [[Hok _]|[_ [_ Hno]]]; [|congruence].
  unfold snapshot_to_db. destruct (ensure_dirs w) as [w1 made].
  cbn [fst snd] in *. subst made.
  rewrite Hc, (snapshot_columns_inserted _ _ _ H1 H2), Hd.
  unfold write_db. rewrite Hwr, Hw, Hs, Hc.
  destruct (db_file w); reflexivity.
Qed.

(** And where it does not, the call stops at [to_csv]. *)
Lemma snapshot_unwritable E view meta w :
  data_dir w <> None ->
  writable w = false ->
  Py.contains (columns view) "_saved_at" = false ->
  Py.contains (columns view) "_meta" = false ->
  snapshot_to_db E view meta w = (w, Raise OSError).
Proof.
  intros Hdir Hw H1 H2. unfold snapshot_to_db, ensure_dirs.
  destruct (data_dir w) as [d|] eqn:Ed; [|congruence].
  rewrite (snapshot_columns_inserted _ _ _ H1 H2).
  unfold write_db. rewrite Hw. destruct (db_file w); reflexivity.
Qed.

Lemma snapshot_Ok E view meta w :
  snd (snapshot_to_db E view meta w) = Ok tt ->
  writable w = true /\
  Py.contains (columns view) "_saved_at" = false /\
  Py.contains (columns view) "_meta" = false.
Proof.
  intros H.
  assert (Hdir : data_dir w <> None \/ writable w = true).
  { destruct (data_dir w) eqn:Ed; [left; discriminate|].
    destruct (writable w) eqn:Ew; [now right|].
    rewrite (snapshot_no_directory E view meta w Ed Ew) in H. discriminate. }
  assert (Hclash : Py.contains (columns view) "_saved_at" = false /\
                   Py.contains (columns view) "_meta" = false).
  { destruct (Py.contains (columns view) "_saved_at") eqn:E1;
      [|destruct (Py.contains (columns view) "_meta") eqn:E2]; [| |auto].
    - destruct (snapshot_refused E view meta w Hdir) as (l & _ & _ & Hs);
        [left; assumption|]. rewrite Hs in H. discriminate.
    - destruct (snapshot_refused E view meta w Hdir) as (l & _ & _ & Hs);
        [right; assumption|]. rewrite Hs in H. discriminate. }
  split; [|exact Hclash]. destruct Hclash as [H1 H2].
  destruct (writable w) eqn:Ew; [reflexivity|].
  destruct Hdir as [Hdir|Hdir]; [|discriminate].
  rewrite (snapshot_unwritable E view meta w Hdir Ew H1 H2) in H. discriminate.
Qed.

(** *** Reading the written records *)

Lemma infer_grid_shape E width grid :
  List.length (infer_grid E width grid) = List.length grid /\
  Forall (fun r => List.length r = width) (infer_grid E width grid).
Proof.
  unfold infer_grid. split.
  - now rewrite length_map, length_seq.
  - apply Forall_forall. intros r Hr. apply in_map_iff in Hr.
    destruct Hr as (i & <- & _). now rewrite !length_map, length_seq.
Qed.

Lemma snapshot_records_regular E stamp meta view :
  rectangular view ->
  Forall (fun r => List.length r = S (S (List.length (columns view))))
         (map (map (fmt E)) (rows (snapshot_frame stamp meta view))).
Proof.
  intros Hrect. cbn [rows snapshot_frame]. rewrite map_map.
  apply Forall_forall. intros r Hr. apply in_map_iff in Hr.
  destruct Hr as (r0 & <- & Hr0). rewrite length_map. cbn [augmented List.length].
  unfold rectangular in Hrect. rewrite Forall_forall in Hrect.
  now rewrite (Hrect r0 Hr0).
Qed.










Section SnapshotRoundTrip.

Variables (E : Env) (view : DataFrame) (meta : dict) (w : World).
Variable data : list (list string).

Local Abbreviation out := (snapshot_frame (clock w) (str_dict E meta) view).

Hypothesis storage : writable w = true.
Hypothesis no_saved_at : Py.contains (columns view) "_saved_at" = false.
Hypothesis no_meta : Py.contains (columns view) "_meta" = false.
Hypothesis view_rectangular : rectangular view.

(** The history is absent, or it is text under the header of this
    snapshot with as many fields in every record. *)
Hypothesis history :
  (db_file w = None /\ data = []) \/
  (db_file w = Some (Text (columns out :: data)) /\
   Forall (fun r => List.length r = List.length (columns out)) data).


End SnapshotRoundTrip.



(* ================================================================= *)
(** ** Frames and tables together *)

Lemma row_of_cells_of (df : DataFrame) (r : Row) :
  columns df = NEEDED_COLS -> row_of df (cells_of r) = Some r.
Proof.
  intros H. unfold row_of, cell_at. rewrite H. now destruct r.
Qed.

Lemma table_of_frame_of_table (t : Table) :
  table_of_frame (frame_of_table t) = Some t.
Proof.
  unfold table_of_frame. cbn [rows frame_of_table].
  generalize (frame_of_table t) (eq_refl : columns (frame_of_table t) = NEEDED_COLS).
  intros df Hdf. induction t as [|r t IH]; [reflexivity|].
  cbn [map all_some fold_right]. unfold all_some in IH. rewrite IH.
  now rewrite (row_of_cells_of df r Hdf).
Qed.

(** The path of the dashboard on the sample source: load, select the
    Pacific league of 2023, rank.  The clamped rate comes first and the
    missing one last. *)
Example load_then_filter :
  exists w df t out,
    load_source Ref.env Sample.fresh = (w, Ok df) /\
    table_of_frame df = Some t /\
    filter_table stable_argsort t 2023 (Some "Pacific") (Some all_teams) = Ok out /\
    map Team out = ["TeamC"; "TeamD"] /\
    teams t (Some 2023%Z) None = ["TeamA"; "TeamB"; "TeamC"; "TeamD"] /\
    years t = [2023%Z].
Proof.
  do 4 eexists.
  repeat (split; [vm_compute; reflexivity|]). vm_compute. reflexivity.
Qed.

(** The example of the specification: two teams of the Central league
    of 2023 come out with the higher rate first. *)
Example central_ranking :
  exists out,
    filter_table stable_argsort [Sample.team_b; Sample.team_a] 2023
                 (Some Sample.central) (Some all_teams) = Ok out /\
    map Team out = ["TeamA"; "TeamB"].
Proof.
  eexists. split; vm_compute; reflexivity.
Qed.

(* ================================================================= *)
(** ** The option lists: [years], [leagues], [teams] *)

Lemma string_leb_trans a b c :
  String.leb a b = true -> String.leb b c = true -> String.leb a c = true.
Proof.
  unfold String.leb. revert b c.
  induction a as [|x a IH]; intros [|y b] [|z c]; simpl; auto; try discriminate.
  unfold Ascii.compare.
  destruct (N.compare_spec (N_of_ascii x) (N_of_ascii y)) as [Hxy|Hxy|Hxy];
    destruct (N.compare_spec (N_of_ascii y) (N_of_ascii z)) as [Hyz|Hyz|Hyz];
    destruct (N.compare_spec (N_of_ascii x) (N_of_ascii z)) as [Hxz|Hxz|Hxz];
    try discriminate; auto; try lia.
  apply IH.
Qed.

Lemma string_leb_ltb a b :
  String.leb a b = true -> a <> b -> String.ltb a b = true.
Proof.
  unfold String.leb, String.ltb. intros H Hne.
  destruct (String.compare a b) eqn:E; auto.
  apply String.compare_eq_iff in E. contradiction.
Qed.

Lemma unique_NoDup {A} (eqb : A -> A -> bool) l :
  (forall a b, eqb a b = true <-> a = b) -> NoDup (Py.unique eqb l).
Proof.
  intros Heq. induction l as [|x l IH]; simpl; constructor.
  - intros H. apply filter_In in H. destruct H as [_ H].
    rewrite (proj2 (Heq x x) eq_refl) in H. discriminate.
  - now apply NoDup_filter.
Qed.

(** The insertion sort on a total, transitive order. *)
Lemma sorted_ascending {A} (le : A -> A -> bool) l :
  (forall x y, le x y = true \/ le y x = true) ->
  (forall x y z, le x y = true -> le y z = true -> le x z = true) ->
  StronglySorted (fun a b => le a b = true) (Py.sorted le l).
Proof.
  intros Htot Htr.
  assert (StronglySorted (stably_before le (fun _ _ => True)) (Py.sorted le l)) as H.
  { apply (sorted_sorted le (fun _ => True) (fun _ _ => True)).
    - intros x y _ _. apply Htot.
    - intros x y z _ _ _. apply Htr.
    - apply Forall_forall. auto.
    - induction l; constructor; [assumption | apply Forall_forall; auto]. }
  eapply StronglySorted_impl; [|exact H]. intros a b _ _ [Hab _]. exact Hab.
Qed.

Lemma StronglySorted_strict {A} (R R' : A -> A -> Prop) l :
  (forall a b, R a b -> a <> b -> R' a b) ->
  NoDup l -> StronglySorted R l -> StronglySorted R' l.
Proof.
  intros HR Hnd HS. induction HS as [|x l HS IH F]; constructor.
  - apply IH. now inversion Hnd.
  - inversion Hnd as [|? ? Hx _]; subst.
    rewrite Forall_forall in *. intros y Hy. apply HR; [now apply F|].
    intros ->. contradiction.
Qed.

Lemma sorted_reverse_perm {A} (le : A -> A -> bool) l :
  Permutation (Py.sorted_reverse le l) l.
Proof.
  unfold Py.sorted_reverse.
  rewrite <- Permutation_rev, sorted_perm. symmetry. apply Permutation_rev.
Qed.

Lemma years_In (df : Table) y :
  In y (years df) <-> exists r, In r df /\ Year r = y.
Proof.
  unfold years.
  pose proof (sorted_reverse_perm Z.leb (Py.unique Z.eqb (map Year df))) as Hperm.
  split.
  - intros H. apply (Permutation_in _ Hperm) in H.
    apply (unique_In Z.eqb _ _ Z.eqb_eq), in_map_iff in H.
    destruct H as (r & Hr & Hin). eauto.
  - intros (r & Hin & Hr). apply (Permutation_in _ (Permutation_sym Hperm)).
    apply (unique_In Z.eqb _ _ Z.eqb_eq). rewrite <- Hr. now apply in_map.
Qed.

(** X1.  [years] lists exactly the years that occur in the table, each
    once, in strictly descending order. *)
Theorem years_distinct_descending (df : Table) :
  (forall y, In y (years df) <-> exists r, In r df /\ Year r = y) /\
  StronglySorted (fun a b => (b < a)%Z) (years df).
Proof.
  split; [apply years_In|].
  unfold years.
  pose proof (sorted_reverse_perm Z.leb (Py.unique Z.eqb (map Year df))) as Hperm.
  unfold Py.sorted_reverse in *.
  set (u := Py.unique Z.eqb (map Year df)) in *.
  - apply (StronglySorted_strict (fun a b => (b <= a)%Z)).
    + intros a b Hab Hne. lia.
    + apply (Permutation_NoDup (Permutation_sym Hperm)).
      apply unique_NoDup, Z.eqb_eq.
    + apply (StronglySorted_rev (fun a b => (a <= b)%Z)).
      eapply StronglySorted_impl; [|apply (sorted_ascending Z.leb)].
      * intros a b _ _ H. now apply Z.leb_le.
      * apply Zleb_total.
      * apply Zleb_trans.
Qed.

Lemma sorted_unique_strings l :
  StronglySorted (fun a b => String.ltb a b = true)
                 (Py.sorted String.leb (Py.unique String.eqb l)).
Proof.
  apply (StronglySorted_strict (fun a b => String.leb a b = true)).
  - intros a b. apply string_leb_ltb.
  - apply (Permutation_NoDup (Permutation_sym (sorted_perm _ _))).
    apply unique_NoDup, String.eqb_eq.
  - apply sorted_ascending; [apply String.leb_total | apply string_leb_trans].
Qed.

(** X2.  [leagues] lists exactly the leagues that occur in the table,
    each once, in strictly ascending order of their text. *)
Theorem leagues_distinct_ascending (df : Table) :
  (forall l, In l (leagues df) <-> exists r, In r df /\ League r = l) /\
  StronglySorted (fun a b => String.ltb a b = true) (leagues df).
Proof.
  unfold leagues. split; [|apply sorted_unique_strings].
  intros l. rewrite sorted_unique_In, in_map_iff.
  split; intros (r & H1 & H2); exists r; split; assumption.
Qed.

Lemma teams_In (df : Table) (year : option Z) (league : option string) t :
  In t (teams df year league) <->
  exists r, In r df /\ Team r = t /\
            (forall y, year = Some y -> Year r = y) /\
            (forall l, league = Some l -> l <> EmptyString -> League r = l).
Proof.
  unfold teams. rewrite sorted_unique_In, in_map_iff.
  assert (Hq : forall r,
             In r (if Py.truthy league
                   then filter (fun r => Py.str_eq (League r) league)
                               match year with
                               | Some y => filter (fun r => Z.eqb (Year r) y) df
                               | None => df
                               end
                   else match year with
                        | Some y => filter (fun r => Z.eqb (Year r) y) df
                        | None => df
                        end)
             <-> In r df /\
                 (forall y, year = Some y -> Year r = y) /\
                 (forall l, league = Some l -> l <> EmptyString -> League r = l)).
  { intros r.
    assert (Hy : In r match year with
                      | Some y => filter (fun r => Z.eqb (Year r) y) df
                      | None => df
                      end
                 <-> In r df /\ (forall y, year = Some y -> Year r = y)).
    { destruct year as [y|].
      - rewrite filter_In, Z.eqb_eq. split.
        + intros [H1 H2]. split; [assumption|]. intros y' E. now injection E as <-.
        + intros [H1 H2]. split; [assumption | now apply H2].
      - split; [intros H; split; [assumption | discriminate] | tauto]. }
    destruct league as [[|c l]|]; cbn [Py.truthy].
    - rewrite Hy. split; [|tauto]. intros [H1 H2]. repeat split; auto.
      intros l E Hne. injection E as <-. contradiction.
    - rewrite filter_In, Hy. cbn [Py.str_eq]. rewrite String.eqb_eq. split.
      + intros [[H1 H2] H3]. repeat split; auto. intros l' E _. now injection E as <-.
      + intros (H1 & H2 & H3). repeat split; auto. apply H3; [reflexivity | discriminate].
    - rewrite Hy. split; [|tauto]. intros [H1 H2]. repeat split; auto. discriminate. }
  split.
  - intros (r & Ht & Hr). apply Hq in Hr. exists r. tauto.
  - intros (r & Hin & Ht & Hr). exists r. split; [assumption|]. apply Hq. tauto.
Qed.

(** X3.  [teams] lists exactly the teams of the rows of the year, when
    a year is given, and of the league, when a league is given and is
    not empty; each team once, in strictly ascending order. *)
Theorem teams_of_selection (df : Table) (year : option Z) (league : option string) :
  (forall t, In t (teams df year league) <->
             exists r, In r df /\ Team r = t /\
                       (forall y, year = Some y -> Year r = y) /\
                       (forall l, league = Some l -> l <> EmptyString -> League r = l)) /\
  StronglySorted (fun a b => String.ltb a b = true) (teams df year league).
Proof.
  split; [intros t; apply teams_In|].
  unfold teams. apply sorted_unique_strings.
Qed.

(* ================================================================= *)
(** ** What the option lists promise about the views *)

Lemma filter_nil_iff {A} (p : A -> bool) l :
  filter p l = [] <-> forall x, In x l -> p x = false.
Proof.
  induction l as [|x l IH]; simpl; [split; [intros _ y [] | reflexivity]|].
  destruct (p x) eqn:E.
  - split; [discriminate|]. intros H. specialize (H x (or_introl eq_refl)). congruence.
  - rewrite IH. split.
    + intros H y [<-|Hy]; auto.
    + intros H y Hy. apply H. now right.
Qed.

Lemma Permutation_nil_iff {A} (l l' : list A) :
  Permutation l l' -> (l = [] <-> l' = []).
Proof.
  intros P. split; intros ->.
  - now apply Permutation_nil.
  - now apply Permutation_nil, Permutation_sym.
Qed.

Lemma selection_In df year league team r :
  In r (selection df year league team) <->
  In r df /\ Year r = year /\
  wanted all_leagues league (League r) = true /\
  wanted all_teams team (Team r) = true.
Proof.
  unfold selection. rewrite filter_In, !andb_true_iff, Z.eqb_eq. tauto.
Qed.

Lemma wanted_true sentinel s value :
  wanted sentinel (Some s) value = true ->
  s <> EmptyString -> s <> sentinel -> value = s.
Proof.
  unfold wanted. intros H H1 H2.
  apply String.eqb_neq in H1, H2. rewrite H1, H2 in H. simpl in H.
  now apply String.eqb_eq.
Qed.

Section ViewsOfOptions.

Variable argsort : Argsort.
Hypothesis Hadm : admissible argsort.

(** X4.  With both sentinels the view of a year is not empty exactly
    when the year is one that [years] offers. *)
Theorem overview_empty_iff (src_df : Table) (y : Z) :
  exists view,
    filter_table argsort src_df y (Some all_leagues) (Some all_teams) = Ok view /\
    (view <> [] <-> In y (years src_df)).
Proof.
  destruct (filter_table_spec argsort Hadm src_df y (Some all_leagues) (Some all_teams))
    as (view & Hv & Pv & _).
  exists view. split; [assumption|].
  rewrite selection_all in Pv.
  rewrite (Permutation_nil_iff _ _ Pv), filter_nil_iff, years_In.
  split.
  - intros H. destruct (existsb (fun r => Z.eqb (Year r) y) src_df) eqn:E.
    + apply existsb_exists in E. destruct E as (r & Hr & Hy).
      apply Z.eqb_eq in Hy. eauto.
    + exfalso. apply H. intros r Hr.
      destruct (Z.eqb (Year r) y) eqn:Ey; [|reflexivity].
      assert (existsb (fun r => Z.eqb (Year r) y) src_df = true)
        by (apply existsb_exists; eauto).
      congruence.
  - intros (r & Hr & Hy) H. specialize (H r Hr). apply Z.eqb_neq in H. contradiction.
Qed.

(** X5.  A team offered by the team box, other than the sentinel,
    always has rows: for the chosen year and league the view of that
    team is not empty, all of its rows are of the year, of the league
    when the league is neither empty nor the sentinel, and of the team
    when its name is not empty. *)
Theorem offered_team_has_rows (src_df : Table) (y : Z) (lg tm : string) :
  In tm (team_options src_df y lg) ->
  tm <> all_teams ->
  exists view,
    filter_table argsort src_df y (Some lg) (Some tm) = Ok view /\
    view <> [] /\
    Forall (fun r => Year r = y) view /\
    (lg <> EmptyString -> lg <> all_leagues -> Forall (fun r => League r = lg) view) /\
    (tm <> EmptyString -> Forall (fun r => Team r = tm) view).
Proof.
  intros Hopt Hsentinel.
  assert (Hin : In tm (teams src_df (Some y) (league_argument lg))).
  { destruct Hopt as [E|H]; [congruence | exact H]. }
  apply teams_In in Hin.
  destruct Hin as (r & Hr & Ht & Hy & Hl).
  destruct (filter_table_spec argsort Hadm src_df y (Some lg) (Some tm))
    as (view & Hv & Pv & _).
  exists view. split; [assumption|].
  assert (Hsel : In r (selection src_df y (Some lg) (Some tm))).
  { apply selection_In. split; [assumption|]. split; [now apply Hy|]. split.
    - unfold wanted. destruct (String.eqb_spec lg EmptyString) as [|Hne]; [reflexivity|].
      destruct (String.eqb_spec lg all_leagues) as [|Hns]; [reflexivity|]. simpl.
      apply String.eqb_eq. apply Hl; [|assumption].
      unfold league_argument. apply String.eqb_neq in Hns. now rewrite Hns.
    - unfold wanted. rewrite Ht, String.eqb_refl. now destruct (_ || _). }
  split.
  { intros ->. apply Permutation_nil in Pv. rewrite Pv in Hsel. destruct Hsel. }
  assert (Hall : forall r', In r' view -> In r' (selection src_df y (Some lg) (Some tm)))
    by (intros r'; apply Permutation_in, Pv).
  split; [|split].
  - apply Forall_forall. intros r' Hr'. apply Hall, selection_In in Hr'. tauto.
  - intros H1 H2. apply Forall_forall. intros r' Hr'.
    apply Hall, selection_In in Hr'. destruct Hr' as (_ & _ & Hw & _).
    now apply (wanted_true all_leagues).
  - intros H1. apply Forall_forall. intros r' Hr'.
    apply Hall, selection_In in Hr'. destruct Hr' as (_ & _ & _ & Hw).
    now apply (wanted_true all_teams).
Qed.

(** X6.  [team_trend] returns rows of the team only, and it returns
    some exactly when the team is one that [teams], without filters,
    offers: for a team picked from that list the trend is never
    empty. *)
Theorem trend_empty_iff (src_df : Table) (team : string) :
  exists trend,
    team_trend argsort src_df team = Ok trend /\
    Forall (fun r => Team r = team) trend /\
    (trend <> [] <-> In team (teams src_df None None)).
Proof.
  destruct (team_trend_spec argsort Hadm src_df team) as (trend & Ht & Pt & _).
  exists trend. split; [assumption|]. split.
  - apply Forall_forall. intros r Hr. apply (Permutation_in _ Pt), filter_In in Hr.
    now apply String.eqb_eq.
  - rewrite (Permutation_nil_iff _ _ Pt), filter_nil_iff, teams_In. split.
    + intros H. destruct (existsb (fun r => String.eqb (Team r) team) src_df) eqn:E.
      * apply existsb_exists in E. destruct E as (r & Hr & Hy).
        apply String.eqb_eq in Hy. exists r. repeat split; auto; discriminate.
      * exfalso. apply H. intros r Hr.
        destruct (String.eqb (Team r) team) eqn:Ey; [|reflexivity].
        assert (existsb (fun r => String.eqb (Team r) team) src_df = true)
          by (apply existsb_exists; eauto).
        congruence.
    + intros (r & Hr & Hy & _) H. specialize (H r Hr).
      apply String.eqb_neq in H. contradiction.
Qed.

(** X7.  The first row of a view, the one the overview announces,
    leads: every row of the view has no rate, or a rate that is not
    above the first row's, which then has one. *)
Theorem top_row_leads (src_df : Table) (y : Z) (lg tm : option string)
    (view : Table) (top : Row) :
  filter_table argsort src_df y lg tm = Ok view ->
  top_row view = Some top ->
  forall r, In r view ->
    F64.isna (WinRate r) = true \/
    (F64.isna (WinRate top) = false /\ F64.le (WinRate r) (WinRate top) = true).
Proof.
  intros Hv Htop r Hr.
  destruct (filter_table_spec argsort Hadm src_df y lg tm) as (view' & Hv' & _ & Sv & _).
  assert (view' = view) as -> by congruence.
  destruct view as [|a rest]; [discriminate|]. injection Htop as ->.
  inversion Sv as [|? ? _ F]; subst. destruct Hr as [<-|Hr].
  - destruct (F64.isna (WinRate top)) eqn:E; [now left|].
    right. split; [reflexivity | now apply f64_le_refl].
  - rewrite Forall_forall in F. exact (F r Hr).
Qed.

End ViewsOfOptions.

(* ================================================================= *)
(** ** What the schema check accepts *)

(** X8.  The strict read and the importer return a table exactly when
    it parses and every required name is among its columns, in any
    order and among any other columns; they return it as parsed. *)
Theorem schema_check_accepts_iff (E : Env) (df : DataFrame) :
  (forall path, _read_csv_strict E path = Ok df <->
                read_path E path = Ok df /\ incl NEEDED_COLS (columns df)) /\
  (forall bytes_obj w, snd (import_uploaded_csv E bytes_obj w) = Ok df <->
                       read_csv E bytes_obj = Ok df /\ incl NEEDED_COLS (columns df)).
Proof.
  split.
  - intros path. rewrite <- missing_columns_nil. split.
    + apply read_csv_strict_Ok.
    + intros [Hr Hm]. unfold _read_csv_strict. rewrite Hr. cbn [bind]. now rewrite Hm.
  - intros b w. rewrite <- missing_columns_nil. unfold import_uploaded_csv. cbn [snd].
    split.
    + intros H. apply bind_Ok in H. destruct H as (raw & Hraw & H).
      destruct (missing_columns raw) eqn:Em; simpl in H; [|discriminate].
      injection H as <-. auto.
    + intros [Hr Hm]. rewrite Hr. cbn [bind]. now rewrite Hm.
Qed.

(* ================================================================= *)
(** ** What [load_source] makes of the columns *)

Lemma load_source_chain E w df :
  snd (load_source E w) = Ok df ->
  exists raw d1 d2 d3 d4 d5,
    _read_csv_strict E (src_file w) = Ok raw /\
    assign_column "Year" (astype_int E) raw = Ok d1 /\
    assign_column "Games" (astype_int E) d1 = Ok d2 /\
    assign_column "Wins" (astype_int E) d2 = Ok d3 /\
    assign_column "Losses" (astype_int E) d3 = Ok d4 /\
    assign_column "Draws" (astype_int E) d4 = Ok d5 /\
    assign_column "WinRate" (clip_rate E) d5 = Ok df.
Proof.
  intros H. apply load_source_Ok in H. cbn [fold_left] in H.
  apply bind_Ok in H. destruct H as (raw & Hraw & H).
  apply bind_Ok in H. destruct H as (d1 & H1 & H).
  apply bind_Ok in H. destruct H as (d5 & Hfold & H).
  apply bind_Ok in Hfold. destruct Hfold as (d4 & Hfold & H5).
  apply bind_Ok in Hfold. destruct Hfold as (d3 & Hfold & H4).
  apply bind_Ok in Hfold. destruct Hfold as (d2 & Hfold & H3).
  apply bind_Ok in Hfold. destruct Hfold as (d1' & Hd1 & H2).
  injection Hd1 as <-.
  exists raw, d1, d2, d3, d4, d5. repeat split; assumption.
Qed.

Lemma assign_column_length c f df df' :
  assign_column c f df = Ok df' -> List.length (rows df') = List.length (rows df).
Proof.
  intros H. destruct (assign_column_position _ _ _ _ H) as (j & Hj).
  symmetry. eapply Forall2_length, (assign_column_rows _ _ _ _ H j Hj).
Qed.

(** Each integer column of the loaded table is the cast of the same
    column of the file; every column that is not cast or clipped is
    the column of the file. *)
Lemma load_source_columns E w df :
  snd (load_source E w) = Ok df ->
  exists raw,
    _read_csv_strict E (src_file w) = Ok raw /\
    columns df = columns raw /\
    List.length (rows df) = List.length (rows raw) /\
    (forall c, In c INT_COLS ->
       Forall2 (fun x y => astype_int E x = Ok y) (column c raw) (column c df)) /\
    Forall2 (fun x y => clip_rate E x = Ok y)
            (column "WinRate" raw) (column "WinRate" df) /\
    (forall c, ~ In c INT_COLS -> c <> "WinRate" -> column c df = column c raw).
Proof.
  intros H.
  destruct (load_source_chain E w df H)
    as (raw & d1 & d2 & d3 & d4 & d5 & Hraw & H1 & H2 & H3 & H4 & H5 & H6).
  exists raw. split; [assumption|].
  pose proof (assign_column_other _ _ _ _ H1) as O1.
  pose proof (assign_column_other _ _ _ _ H2) as O2.
  pose proof (assign_column_other _ _ _ _ H3) as O3.
  pose proof (assign_column_other _ _ _ _ H4) as O4.
  pose proof (assign_column_other _ _ _ _ H5) as O5.
  pose proof (assign_column_other _ _ _ _ H6) as O6.
  split; [|split; [|split; [|split]]].
  - rewrite (assign_column_columns _ _ _ _ H6), (assign_column_columns _ _ _ _ H5),
      (assign_column_columns _ _ _ _ H4), (assign_column_columns _ _ _ _ H3),
      (assign_column_columns _ _ _ _ H2). exact (assign_column_columns _ _ _ _ H1).
  - rewrite (assign_column_length _ _ _ _ H6), (assign_column_length _ _ _ _ H5),
      (assign_column_length _ _ _ _ H4), (assign_column_length _ _ _ _ H3),
      (assign_column_length _ _ _ _ H2). exact (assign_column_length _ _ _ _ H1).
  - intros c Hc. unfold INT_COLS in Hc. simpl in Hc.
    destruct Hc as [<-|[<-|[<-|[<-|[<-|[]]]]]].
    + rewrite O6, O5, O4, O3, O2 by discriminate.
      exact (assign_column_same _ _ _ _ H1).
    + rewrite O6, O5, O4, O3 by discriminate. rewrite <- O1 by discriminate.
      exact (assign_column_same _ _ _ _ H2).
    + rewrite O6, O5, O4 by discriminate. rewrite <- O1, <- O2 by discriminate.
      exact (assign_column_same _ _ _ _ H3).
    + rewrite O6, O5 by discriminate. rewrite <- O1, <- O2, <- O3 by discriminate.
      exact (assign_column_same _ _ _ _ H4).
    + rewrite O6 by discriminate.
      rewrite <- O1, <- O2, <- O3, <- O4 by discriminate.
      exact (assign_column_same _ _ _ _ H5).
  - rewrite <- O1, <- O2, <- O3, <- O4, <- O5 by discriminate.
    exact (assign_column_same _ _ _ _ H6).
  - intros c Hc Hw. unfold INT_COLS in Hc. simpl in Hc.
    rewrite O6, O5, O4, O3, O2, O1; auto; intros ->; apply Hc; tauto.
Qed.

(** X9.  A table that [load_source] returns has the labels and the
    number of rows of the file, integers in the five integer columns,
    floats in [WinRate], and every other column (so [League] and
    [Team]) as the file has it. *)
Theorem load_source_normalizes (E : Env) (w w' : World) (df : DataFrame) :
  load_source E w = (w', Ok df) ->
  exists raw,
    read_path E (src_file w) = Ok raw /\
    columns df = columns raw /\
    List.length (rows df) = List.length (rows raw) /\
    (forall c, In c INT_COLS -> Forall (fun y => is_int y = true) (column c df)) /\
    Forall (fun y => is_float y = true) (column "WinRate" df) /\
    (forall c, ~ In c INT_COLS -> c <> "WinRate" -> column c df = column c raw).
Proof.
  intros H. apply (f_equal snd) in H. cbn [snd] in H.
  destruct (load_source_columns E w df H) as (raw & Hraw & Hc & Hl & Hi & Hf & Ho).
  exists raw. split; [now apply read_csv_strict_Ok in Hraw|].
  split; [assumption|]. split; [assumption|]. split; [|split; [|assumption]].
  - intros c Hin. specialize (Hi c Hin).
    induction Hi as [|x y l l' Hxy _ IH]; constructor; [|assumption].
    destruct x as [z|f|s]; simpl in Hxy.
    + now injection Hxy as <-.
    + destruct (is_finite f); [now injection Hxy as <- | discriminate].
    + destruct (int_of_str E s) as [z|]; [|discriminate].
      destruct (in_int64 z); [now injection Hxy as <- | discriminate].
  - induction Hf as [|x y l l' Hxy _ IH]; constructor; [|assumption].
    unfold clip_rate in Hxy. apply bind_Ok in Hxy.
    destruct Hxy as (v & _ & Hy). now injection Hy as <-.
Qed.

(* ================================================================= *)
(** ** What [load_source] rejects *)

Lemma mapM_cases {A B} (g : A -> result B) l e :
  (forall a, In a l -> (exists b, g a = Ok b) \/ g a = Raise e) ->
  (exists bs, mapM g l = Ok bs) \/ mapM g l = Raise e.
Proof.
  induction l as [|a l IH]; intros H; simpl; [left; exists []; reflexivity|].
  assert (IH' : (exists bs, mapM g l = Ok bs) \/ mapM g l = Raise e).
  { apply IH. intros a' Ha'. apply H. now right. }
  destruct (H a (or_introl eq_refl)) as [(b & ->)| ->]; [|now right].
  cbn [bind]. destruct IH' as [(bs & ->)| ->]; [left; eexists; reflexivity | now right].
Qed.

Lemma length_replace {A} (r : list A) j y :
  (j < List.length r)%nat ->
  List.length (firstn j r ++ y :: skipn (S j) r) = List.length r.
Proof.
  intros H. rewrite length_app, length_firstn. cbn [List.length].
  rewrite length_skipn. lia.
Qed.

(** On a rectangular frame that has the column, an assignment of a
    cast either succeeds, on a rectangular frame, or raises
    [CastError]. *)
Lemma assign_column_cases c f df :
  rectangular df -> In c (columns df) ->
  (forall x, (exists y, f x = Ok y) \/ f x = Raise CastError) ->
  (exists df', assign_column c f df = Ok df' /\ rectangular df') \/
  assign_column c f df = Raise CastError.
Proof.
  intros Hrect Hin Hf.
  destruct (position c (columns df)) as [j|] eqn:Hj.
  2:{ apply contains_In, position_contains in Hin. contradiction. }
  assert (Hlt : (j < List.length (columns df))%nat).
  { apply nth_error_Some. rewrite (position_nth _ _ _ Hj). discriminate. }
  destruct (assign_column c f df) as [df'|e] eqn:Ea.
  - left. exists df'. split; [reflexivity|].
    unfold rectangular. rewrite (assign_column_columns _ _ _ _ Ea).
    pose proof (assign_column_rows _ _ _ _ Ea j Hj) as H.
    unfold rectangular in Hrect.
    induction H as [|r r' rs rs' (x & y & Hx & Hy & ->) H IH]; constructor.
    + inversion Hrect; subst. rewrite length_replace; [assumption | lia].
    + apply IH. now inversion Hrect.
  - right. unfold assign_column in Ea. rewrite Hj in Ea.
    destruct (mapM_cases
                (fun r => match nth_error r j with
                          | Some x => y <- f x ;; Ok (firstn j r ++ y :: skipn (S j) r)
                          | None => Raise IndexError
                          end) (rows df) CastError) as [(bs & Hbs)|Hbs].
    + intros r Hr. unfold rectangular in Hrect. rewrite Forall_forall in Hrect.
      specialize (Hrect r Hr).
      destruct (nth_error r j) as [x|] eqn:Ex.
      * destruct (Hf x) as [(y & ->)| ->]; [left; eexists; reflexivity | now right].
      * apply nth_error_None in Ex. lia.
    + rewrite Hbs in Ea. discriminate.
    + rewrite Hbs in Ea. cbn [bind] in Ea. congruence.
Qed.

Lemma astype_int_cases E x :
  (exists y, astype_int E x = Ok y) \/ astype_int E x = Raise CastError.
Proof.
  destruct x as [z|f|s]; simpl.
  - left. eexists. reflexivity.
  - destruct (is_finite f); [left; eexists; reflexivity | now right].
  - destruct (int_of_str E s) as [z|]; [|now right].
    destruct (in_int64 z); [left; eexists; reflexivity | now right].
Qed.

Lemma clip_rate_cases E x :
  (exists y, clip_rate E x = Ok y) \/ clip_rate E x = Raise CastError.
Proof.
  unfold clip_rate. destruct x as [z|f|s]; simpl.
  - left. eexists. reflexivity.
  - left. eexists. reflexivity.
  - destruct (float_of_str E s); simpl; [left; eexists; reflexivity | now right].
Qed.

(** After the schema check, on a rectangular table, [load_source]
    returns a table or raises [CastError]. *)
Lemma load_source_cases E w raw :
  _read_csv_strict E (src_file w) = Ok raw -> rectangular raw ->
  (exists df, snd (load_source E w) = Ok df) \/
  snd (load_source E w) = Raise CastError.
Proof.
  intros Hraw Hrect.
  assert (Hcols : incl NEEDED_COLS (columns raw)).
  { apply missing_columns_nil. now apply read_csv_strict_Ok in Hraw. }
  destruct (read_path_Ok E (src_file w) raw) as (file & Hfile);
    [now apply read_csv_strict_Ok in Hraw|].
  rewrite (load_source_present E w file Hfile). cbn [fold_left].
  rewrite Hraw. cbn [bind].
  assert (Hstep : forall c d, In c NEEDED_COLS -> columns d = columns raw ->
            rectangular d ->
            (exists d', assign_column c (astype_int E) d = Ok d' /\
                        rectangular d' /\ columns d' = columns raw) \/
            assign_column c (astype_int E) d = Raise CastError).
  { intros c d Hc Hd Hr.
    destruct (assign_column_cases c (astype_int E) d Hr) as [(d' & Hd' & Hr')|He].
    - rewrite Hd. now apply Hcols.
    - apply astype_int_cases.
    - left. exists d'. repeat split; auto.
      now rewrite (assign_column_columns _ _ _ _ Hd'). 
    - now right. }
  destruct (Hstep "Year" raw) as [(d1 & -> & R1 & C1)| ->];
    [simpl; tauto | reflexivity | assumption | | now right]. cbn [bind].
  destruct (Hstep "Games" d1) as [(d2 & -> & R2 & C2)| ->];
    [simpl; tauto | assumption | assumption | | now right]. cbn [bind].
  destruct (Hstep "Wins" d2) as [(d3 & -> & R3 & C3)| ->];
    [simpl; tauto | assumption | assumption | | now right]. cbn [bind].
  destruct (Hstep "Losses" d3) as [(d4 & -> & R4 & C4)| ->];
    [simpl; tauto | assumption | assumption | | now right]. cbn [bind].
  destruct (Hstep "Draws" d4) as [(d5 & -> & R5 & C5)| ->];
    [simpl; tauto | assumption | assumption | | now right]. cbn [bind].
  destruct (assign_column_cases "WinRate" (clip_rate E) d5 R5) as [(df & -> & _)| ->].
  - rewrite C5. apply Hcols. simpl. tauto.
  - apply clip_rate_cases.
  - left. eexists. reflexivity.
  - now right.
Qed.

(** X10.  A missing or infinite value in one of the five integer
    columns is not let through: on a table that passed the schema
    check, [load_source] raises the cast error.  (A missing [WinRate]
    is let through.) *)
Theorem load_source_rejects_missing_integer
    (E : Env) (w : World) (raw : DataFrame) (c : string) (f : float) :
  read_path E (src_file w) = Ok raw ->
  rectangular raw ->
  incl NEEDED_COLS (columns raw) ->
  In c INT_COLS ->
  In (CFloat f) (column c raw) ->
  is_finite f = false ->
  snd (load_source E w) = Raise CastError.
Proof.
  intros Hr Hrect Hcols Hc Hin Hf.
  assert (Hraw : _read_csv_strict E (src_file w) = Ok raw).
  { unfold _read_csv_strict. rewrite Hr. cbn [bind].
    now rewrite (proj2 (missing_columns_nil raw) Hcols). }
  destruct (load_source_cases E w raw Hraw Hrect) as [(df & Hdf)|He]; [|assumption].
  exfalso.
  destruct (load_source_columns E w df Hdf) as (raw' & Hraw' & _ & _ & Hi & _).
  assert (raw' = raw) as -> by congruence.
  specialize (Hi c Hc).
  assert (exists y, astype_int E (CFloat f) = Ok y) as (y & Hy).
  { clear -Hi Hin. induction Hi as [|x y l l' Hxy _ IH]; [destruct Hin|].
    destruct Hin as [->|Hin]; eauto. }
  simpl in Hy. rewrite Hf in Hy. discriminate.
Qed.

(* ================================================================= *)
(** ** What a snapshot writes *)

(** X11.  [snapshot_to_db] succeeds exactly when the storage takes
    writes and the view has neither a [_saved_at] nor a [_meta] column.
    When it fails it raises [OSError] or the [ValueError] of [insert]
    that names the column, and both files are as they were: on storage
    that takes writes only the [ValueError] is left, and for a view
    that has neither column only the [OSError]. *)
Theorem snapshot_succeeds_iff (E : Env) (view : DataFrame) (meta : dict) (w : World) :
  (snd (snapshot_to_db E view meta w) = Ok tt <->
   writable w = true /\
   Py.contains (columns view) "_saved_at" = false /\
   Py.contains (columns view) "_meta" = false) /\
  (snd (snapshot_to_db E view meta w) <> Ok tt ->
   (snd (snapshot_to_db E view meta w) = Raise OSError /\ writable w = false \/
    exists label,
      (label = "_saved_at" \/ label = "_meta") /\
      In label (columns view) /\
      snd (snapshot_to_db E view meta w)
        = Raise (ValueError ("cannot insert " ++ label ++ ", already exists"))) /\
   (writable w = true ->
    exists label,
      (label = "_saved_at" \/ label = "_meta") /\
      In label (columns view) /\
      snd (snapshot_to_db E view meta w)
        = Raise (ValueError ("cannot insert " ++ label ++ ", already exists"))) /\
   (Py.contains (columns view) "_saved_at" = false ->
    Py.contains (columns view) "_meta" = false ->
    snd (snapshot_to_db E view meta w) = Raise OSError) /\
   db_file (fst (snapshot_to_db E view meta w)) = db_file w /\
   src_file (fst (snapshot_to_db E view meta w)) = src_file w).
Proof.
  split.
  - split; [apply snapshot_Ok|].
    intros (Hw & H1 & H2). now rewrite (snapshot_written E view meta w Hw H1 H2).
  - intros Hfail.
    destruct (ensure_dirs_files w) as (Hsrc & Hdb & _ & _).
    destruct (Py.contains (columns view) "_saved_at") eqn:E1;
      [|destruct (Py.contains (columns view) "_meta") eqn:E2].
    3:{ (* no clash: the storage takes no writes *)
      assert (Hw : writable w = false).
      { destruct (writable w) eqn:Ew; [|reflexivity].
        exfalso. apply Hfail. now rewrite (snapshot_written E view meta w Ew E1 E2). }
      assert (Hs : snapshot_to_db E view meta w = (w, Raise OSError)).
      { destruct (data_dir w) eqn:Ed.
        - apply snapshot_unwritable; auto. rewrite Ed. discriminate.
        - now apply snapshot_no_directory. }
      rewrite Hs. cbn [fst snd].
      split; [now left|]. split; [congruence|]. split; [reflexivity|]. split; reflexivity. }
    all: assert (Hclash : Py.contains (columns view) "_saved_at" = true \/
                          Py.contains (columns view) "_meta" = true) by auto.
    all: destruct (data_dir w) eqn:Ed;
      [ assert (Hdir : data_dir w <> None \/ writable w = true)
          by (left; rewrite Ed; discriminate)
      | destruct (writable w) eqn:Ew;
        [ assert (Hdir : data_dir w <> None \/ writable w = true) by (right; exact Ew)
        | rewrite (snapshot_no_directory E view meta w Ed Ew); cbn [fst snd];
          split; [now left|]; split; [discriminate|];
          split; [intros; discriminate|]; split; reflexivity ] ].
    all: destruct (snapshot_refused E view meta w Hdir Hclash)
           as (label & Hl & Hin & Hs);
         rewrite Hs; cbn [fst snd];
         split; [right; exists label; auto|];
         split; [intros _; exists label; auto|];
         split; [intros; discriminate|]; split; assumption.
Qed.

(** X12.  A successful snapshot leaves the source file alone and only
    adds to the history: one record per row of the view, each starting
    with the timestamp and the meta text, after the header when the
    file did not exist and after the records already there, unchanged,
    when it did. *)
Theorem snapshot_appends_only (E : Env) (view : DataFrame) (meta : dict) (w w' : World) :
  snapshot_to_db E view meta w = (w', Ok tt) ->
  src_file w' = src_file w /\
  exists added,
    List.length added = List.length (rows view) /\
    Forall (fun r => exists fields,
              r = fmt E (CStr (clock w)) :: fmt E (CStr (str_dict E meta)) :: fields)
           added /\
    match db_file w with
    | None => db_file w' = Some (Text (("_saved_at" :: "_meta" :: columns view) :: added))
    | Some (Text old) => db_file w' = Some (Text (old ++ added))
    | Some Garbled => db_file w' = Some Garbled
    end.
Proof.
  intros H.
  assert (Hok : snd (snapshot_to_db E view meta w) = Ok tt) by now rewrite H.
  apply snapshot_Ok in Hok. destruct Hok as (Hw & H1 & H2).
  rewrite (snapshot_written E view meta w Hw H1 H2) in H. injection H as <-.
  split; [reflexivity|].
  exists (map (map (fmt E)) (rows (snapshot_frame (clock w) (str_dict E meta) view))).
  split; [cbn [rows snapshot_frame]; now rewrite !length_map|].
  split.
  - cbn [rows snapshot_frame]. rewrite map_map. apply Forall_forall.
    intros r Hr. apply in_map_iff in Hr. destruct Hr as (r0 & <- & _).
    eexists. reflexivity.
  - destruct (db_file w) as [[|old]|]; reflexivity.
Qed.

(** X13.  After a first snapshot (no history before) the history can
    be read: [load_db] returns a table under the labels of the
    snapshot's header with one row per row of the view, each with one
    cell per column. *)
Theorem first_snapshot_readable (E : Env) (view : DataFrame) (meta : dict) (w w' : World) :
  db_file w = None ->
  rectangular view ->
  snapshot_to_db E view meta w = (w', Ok tt) ->
  exists df,
    load_db E w' = (w', Ok df) /\
    columns df = labels E ("_saved_at" :: "_meta" :: columns view) /\
    List.length (rows df) = List.length (rows view) /\
    Forall (fun r => List.length r = S (S (List.length (columns view)))) (rows df).
Proof.
  intros Hdb Hrect Hsnap.
  assert (Hok : snd (snapshot_to_db E view meta w) = Ok tt) by now rewrite Hsnap.
  apply snapshot_Ok in Hok. destruct Hok as (Hstorage & H1 & H2).
  rewrite (snapshot_written E view meta w Hstorage H1 H2), Hdb in Hsnap.
  injection Hsnap as <-.
  unfold load_db, db_file. cbn [data_dir db].
  rewrite read_csv_regular by (apply snapshot_records_regular, Hrect).
  eexists. split; [reflexivity|]. cbn [columns rows snapshot_frame List.length].
  destruct (infer_grid_shape E (S (S (List.length (columns view))))
              (map (map (fmt E)) (map (augmented (clock w) (str_dict E meta))
                                      (rows view)))) as [Hl Hw].
  split; [reflexivity|]. split; [|exact Hw].
  now rewrite Hl, !length_map.
Qed.

(** X14.  Only the first snapshot writes a header: after a second
    snapshot, whatever its columns and whenever it is taken, the file
    is the header of the first, the records the first wrote for its
    rows behind its timestamp and meta text, and the records the
    second wrote for its rows behind its own. *)
Theorem later_snapshots_keep_first_header
    (E : Env) (v1 v2 : DataFrame) (m1 m2 : dict) (w w1 w1' w2 : World) :
  db_file w = None ->
  snapshot_to_db E v1 m1 w = (w1, Ok tt) ->
  db_file w1' = db_file w1 ->
  snapshot_to_db E v2 m2 w1' = (w2, Ok tt) ->
  db_file w2
  = Some (Text (("_saved_at" :: "_meta" :: columns v1)
                :: map (fun r => map (fmt E) (augmented (clock w) (str_dict E m1) r))
                       (rows v1)
                ++ map (fun r => map (fmt E) (augmented (clock w1') (str_dict E m2) r))
                       (rows v2))).
Proof.
  intros Hdb S1 Hsame S2.
  assert (O1 : snd (snapshot_to_db E v1 m1 w) = Ok tt) by now rewrite S1.
  assert (O2 : snd (snapshot_to_db E v2 m2 w1') = Ok tt) by now rewrite S2.
  apply snapshot_Ok in O1, O2. destruct O1 as (W1 & A1 & B1), O2 as (W2 & A2 & B2).
  rewrite (snapshot_written E v1 m1 w W1 A1 B1), Hdb in S1. injection S1 as <-.
  rewrite (snapshot_written E v2 m2 w1' W2 A2 B2), Hsame in S2. injection S2 as <-.
  unfold db_file. cbn [data_dir db append_text rows snapshot_frame columns].
  now rewrite !map_map.
Qed.

Lemma tokenize_overlong width regular r rest :
  Forall (fun x => List.length x = width) regular ->
  (width < List.length r)%nat ->
  tokenize width (regular ++ r :: rest) = Raise ParserError.
Proof.
  intros F Hr. induction F as [|x l Hx F IH]; simpl.
  - apply Nat.ltb_lt in Hr. now rewrite Hr.
  - rewrite Hx, Nat.ltb_irrefl, IH. reflexivity.
Qed.

(** X15.  On storage that takes writes, a snapshot of a view with more
    columns than the header of a history that holds records succeeds,
    and the history can no longer be read: [load_db] raises the
    parser's error. *)
Theorem wider_snapshot_breaks_history
    (E : Env) (view : DataFrame) (meta : dict) (w : World)
    (header first : list string) (more : list (list string)) :
  db_file w = Some (Text (header :: first :: more)) ->
  Forall (fun r => List.length r = List.length header) (first :: more) ->
  writable w = true ->
  Py.contains (columns view) "_saved_at" = false ->
  Py.contains (columns view) "_meta" = false ->
  rectangular view ->
  rows view <> [] ->
  (List.length header < 2 + List.length (columns view))%nat ->
  exists w',
    snapshot_to_db E view meta w = (w', Ok tt) /\
    load_db E w' = (w', Raise ParserError).
Proof.
  intros Hdb Hreg Hw H1 H2 Hrect Hrows Hwide.
  rewrite (snapshot_written E view meta w Hw H1 H2), Hdb.
  eexists. split; [reflexivity|].
  unfold load_db, db_file. cbn [data_dir db append_text]. f_equal.
  pose proof (snapshot_records_regular E (clock w) (str_dict E meta) view Hrect) as Hnew.
  destruct (map (map (fmt E)) (rows (snapshot_frame (clock w) (str_dict E meta) view)))
    as [|r rest] eqn:Er.
  { exfalso. apply Hrows. cbn [rows snapshot_frame] in Er.
    apply map_eq_nil, map_eq_nil in Er. exact Er. }
  inversion Hnew as [|? ? Hr _]; subst.
  change ((header :: first :: more) ++ r :: rest)
    with (header :: (first :: more) ++ r :: rest).
  unfold read_csv. cbn [app].
  inversion Hreg as [|? ? Hfirst _]; subst.
  rewrite Hfirst, Nat.max_id.
  change (first :: more ++ r :: rest) with ((first :: more) ++ r :: rest).
  rewrite (tokenize_overlong _ _ _ _ Hreg); [reflexivity|]. lia.
Qed.

(** X16.  A history file that exists and is empty gets no header (on
    storage that takes writes): the first row of the view is read back
    as the column labels, and the table has one row less than the
    view. *)
Theorem snapshot_into_empty_file
    (E : Env) (view : DataFrame) (meta : dict) (w : World)
    (r1 : list cell) (rs : list (list cell)) :
  db_file w = Some (Text []) ->
  writable w = true ->
  Py.contains (columns view) "_saved_at" = false ->
  Py.contains (columns view) "_meta" = false ->
  rectangular view ->
  rows view = r1 :: rs ->
  exists w' df,
    snapshot_to_db E view meta w = (w', Ok tt) /\
    load_db E w' = (w', Ok df) /\
    columns df
    = labels E (map (fmt E) (augmented (clock w) (str_dict E meta) r1)) /\
    List.length (rows df) = List.length rs.
Proof.
  intros Hdb Hw H1 H2 Hrect Hrows.
  rewrite (snapshot_written E view meta w Hw H1 H2), Hdb.
  eexists. eexists. split; [reflexivity|].
  unfold load_db, db_file. cbn [data_dir db append_text app].
  pose proof (snapshot_records_regular E (clock w) (str_dict E meta) view Hrect) as Hnew.
  cbn [rows snapshot_frame] in *. rewrite Hrows in *. cbn [map] in *.
  inversion Hnew as [|? ? Hr Hrest]; subst.
  rewrite read_csv_regular.
  - split; [reflexivity|]. cbn [columns rows]. split; [reflexivity|].
    destruct (infer_grid_shape E
                (List.length (map (fmt E) (augmented (clock w) (str_dict E meta) r1)))
                (map (map (fmt E)) (map (augmented (clock w) (str_dict E meta)) rs)))
      as [Hl _].
    now rewrite Hl, !length_map.
  - eapply Forall_impl; [|exact Hrest]. intros a Ha. rewrite Ha. symmetry. exact Hr.
Qed.

(* ================================================================= *)
(** ** The added properties on the sample data *)

Lemma overview_empty_iff_witness :
  admissible stable_argsort /\
  exists view,
    filter_table stable_argsort Sample.season 2023 (Some all_leagues) (Some all_teams)
      = Ok view /\
    (view <> [] <-> In 2023%Z (years Sample.season)).
Proof.
  split; [exact stable_argsort_admissible|].
  exact (overview_empty_iff stable_argsort stable_argsort_admissible Sample.season 2023).
Defined.

Lemma offered_team_has_rows_witness :
  admissible stable_argsort /\
  In "TeamC" (team_options Sample.season 2023 Sample.pacific) /\
  "TeamC" <> all_teams /\
  exists view,
    filter_table stable_argsort Sample.season 2023 (Some Sample.pacific) (Some "TeamC")
      = Ok view /\
    view <> [] /\
    Forall (fun r => Year r = 2023%Z) view /\
    (Sample.pacific <> EmptyString -> Sample.pacific <> all_leagues ->
     Forall (fun r => League r = Sample.pacific) view) /\
    ("TeamC" <> EmptyString -> Forall (fun r => Team r = "TeamC") view).
Proof.
  split; [exact stable_argsort_admissible|].
  assert (H1 : In "TeamC" (team_options Sample.season 2023 Sample.pacific))
    by (vm_compute; tauto).
  assert (H2 : "TeamC" <> all_teams) by discriminate.
  split; [exact H1|]. split; [exact H2|].
  exact (offered_team_has_rows stable_argsort stable_argsort_admissible
           Sample.season 2023 Sample.pacific "TeamC" H1 H2).
Defined.

Lemma trend_empty_iff_witness :
  admissible stable_argsort /\
  exists trend,
    team_trend stable_argsort Sample.season "TeamC" = Ok trend /\
    Forall (fun r => Team r = "TeamC") trend /\
    (trend <> [] <-> In "TeamC" (teams Sample.season None None)).
Proof.
  split; [exact stable_argsort_admissible|].
  exact (trend_empty_iff stable_argsort stable_argsort_admissible Sample.season "TeamC").
Defined.

Lemma top_row_leads_witness :
  admissible stable_argsort /\
  filter_table stable_argsort Sample.season 2023 (Some Sample.central) None
    = Ok [Sample.team_a; Sample.team_b] /\
  top_row [Sample.team_a; Sample.team_b] = Some Sample.team_a /\
  forall r, In r [Sample.team_a; Sample.team_b] ->
    F64.isna (WinRate r) = true \/
    (F64.isna (WinRate Sample.team_a) = false /\
     F64.le (WinRate r) (WinRate Sample.team_a) = true).
Proof.
  split; [exact stable_argsort_admissible|].
  assert (H1 : filter_table stable_argsort Sample.season 2023 (Some Sample.central) None
               = Ok [Sample.team_a; Sample.team_b]) by (vm_compute; reflexivity).
  split; [exact H1|]. split; [reflexivity|].
  exact (top_row_leads stable_argsort stable_argsort_admissible Sample.season 2023
           (Some Sample.central) None _ _ H1 eq_refl).
Defined.

Lemma load_source_normalizes_witness :
  exists w' df,
    load_source Ref.env Sample.fresh = (w', Ok df) /\
    exists raw,
      read_path Ref.env (src_file Sample.fresh) = Ok raw /\
      columns df = columns raw /\
      List.length (rows df) = List.length (rows raw) /\
      (forall c, In c INT_COLS -> Forall (fun y => is_int y = true) (column c df)) /\
      Forall (fun y => is_float y = true) (column "WinRate" df) /\
      (forall c, ~ In c INT_COLS -> c <> "WinRate" -> column c df = column c raw).
Proof.
  eexists. eexists. split; [vm_compute; reflexivity|].
  eapply (load_source_normalizes Ref.env Sample.fresh). vm_compute. reflexivity.
Defined.

Lemma load_source_rejects_missing_integer_witness :
  read_path Ref.env (src_file Sample.year_missing) = Ok Sample.frame_without_year /\
  snd (load_source Ref.env Sample.year_missing) = Raise CastError.
Proof.
  split; [reflexivity|].
  apply (load_source_rejects_missing_integer Ref.env Sample.year_missing
           Sample.frame_without_year "Year" nan).
  - reflexivity.
  - repeat constructor.
  - intros c Hc. exact Hc.
  - simpl. tauto.
  - vm_compute. tauto.
  - reflexivity.
Defined.

Lemma snapshot_appends_only_witness :
  snapshot_to_db Ref.env Sample.view Sample.selections Sample.later
    = (fst (snapshot_to_db Ref.env Sample.view Sample.selections Sample.later), Ok tt) /\
  exists added,
    List.length added = 2%nat /\
    db_file (fst (snapshot_to_db Ref.env Sample.view Sample.selections Sample.later))
    = match db_file Sample.later with
      | Some (Text old) => Some (Text (old ++ added))
      | _ => None
      end.
Proof.
  assert (H : snapshot_to_db Ref.env Sample.view Sample.selections Sample.later
              = (fst (snapshot_to_db Ref.env Sample.view Sample.selections Sample.later),
                 Ok tt)) by reflexivity.
  split; [exact H|].
  destruct (snapshot_appends_only Ref.env Sample.view Sample.selections Sample.later _ H)
    as (_ & added & Hl & _ & Hdb).
  exists added. split; [exact Hl | exact Hdb].
Defined.

Lemma first_snapshot_readable_witness :
  exists df,
    load_db Ref.env Sample.logged = (Sample.logged, Ok df) /\
    columns df = labels Ref.env ("_saved_at" :: "_meta" :: columns Sample.view) /\
    List.length (rows df) = List.length (rows Sample.view) /\
    Forall (fun r => List.length r = S (S (List.length (columns Sample.view)))) (rows df).
Proof.
  apply (first_snapshot_readable Ref.env Sample.view Sample.selections Sample.fresh).
  - reflexivity.
  - repeat constructor.
  - reflexivity.
Defined.

Lemma later_snapshots_keep_first_header_witness :
  db_file (fst (snapshot_to_db Ref.env Sample.view_wider Sample.selections Sample.later))
  = Some (Text (("_saved_at" :: "_meta" :: columns Sample.view)
                :: map (fun r => map (fmt Ref.env)
                                     (augmented (clock Sample.fresh)
                                                (str_dict Ref.env Sample.selections) r))
                       (rows Sample.view)
                ++ map (fun r => map (fmt Ref.env)
                                     (augmented (clock Sample.later)
                                                (str_dict Ref.env Sample.selections) r))
                       (rows Sample.view_wider))).
Proof.
  apply (later_snapshots_keep_first_header Ref.env Sample.view Sample.view_wider
           Sample.selections Sample.selections Sample.fresh Sample.logged Sample.later).
  - reflexivity.
  - reflexivity.
  - reflexivity.
  - reflexivity.
Defined.

Lemma wider_snapshot_breaks_history_witness :
  exists w',
    snapshot_to_db Ref.env Sample.view_wider Sample.selections Sample.logged
      = (w', Ok tt) /\
    load_db Ref.env w' = (w', Raise ParserError).
Proof.
  eapply (wider_snapshot_breaks_history Ref.env Sample.view_wider Sample.selections
            Sample.logged).
  - vm_compute. reflexivity.
  - repeat constructor.
  - reflexivity.
  - reflexivity.
  - reflexivity.
  - repeat constructor.
  - discriminate.
  - simpl. lia.
Defined.

Lemma snapshot_into_empty_file_witness :
  exists w' df,
    snapshot_to_db Ref.env Sample.view Sample.selections Sample.touched = (w', Ok tt) /\
    load_db Ref.env w' = (w', Ok df) /\
    columns df
    = labels Ref.env
        (map (fmt Ref.env)
             (augmented (clock Sample.touched) (str_dict Ref.env Sample.selections)
                        [CInt 2023; CStr "TeamA"; CInt 80])) /\
    List.length (rows df) = 1%nat.
Proof.
  apply (snapshot_into_empty_file Ref.env Sample.view Sample.selections Sample.touched
           [CInt 2023; CStr "TeamA"; CInt 80] [[CInt 2023; CStr "TeamB"; CInt 70]]).
  - reflexivity.
  - reflexivity.
  - reflexivity.
  - reflexivity.
  - repeat constructor.
  - reflexivity.
Defined.
